(** * Unit-cell basis, supercell enumeration and symmetry-mate placement

    A shallow embedding of [scripts/supercell.py] and of the [cellbasis]
    copy in [scripts/cell_axes.py].

    Numbers.  The scripts compute with numpy [float64] values.  They are
    modelled by [float64] below: a real number, or one of the three IEEE
    special values.  Arithmetic on finite values is exact (no rounding and
    no overflow), the special values follow IEEE 754 and numpy's default
    error state, in which a division by zero or an invalid operation gives
    [inf] or [nan] together with a warning and raises nothing.  The sign of
    a zero is not tracked.

    Host.  The PyMOL calls that only read ([cmd.get_symmetry],
    [cmd.get_extent], [xray.sg_sym_to_mat_list], ...) are fields of a
    [Host] record; the calls that change the scene are recorded, in order,
    in a log of [HostCmd] values. *)

From Stdlib Require Import Reals Lra Lia ZArith List String Ascii Bool.
From Stdlib Require Import DecimalString Sorted.
Import ListNotations.

(** ** Python exceptions and results *)

Inductive exn : Type :=
| IndexError
| ValueError
| LinAlgError
| HostError (msg : string).

Inductive result (A : Type) : Type :=
| Ok (a : A)
| Raise (e : exn).

Arguments Ok {A} a.
Arguments Raise {A} e.

Definition rbind {A B : Type} (r : result A) (k : A -> result B) : result B :=
  match r with
  | Ok a => k a
  | Raise e => Raise e
  end.

Declare Scope result_scope.
Delimit Scope result_scope with result.
Notation "x <- r ;; k" := (rbind r (fun x => k))
  (at level 61, r at next level, right associativity) : result_scope.

(** ** The numeric model *)

Inductive float64 : Type :=
| Fin (r : R)
| PInf
| NInf
| NaN.


Definition is_nan (x : float64) : bool :=
  match x with NaN => true | _ => false end.

Module F64.

Local Open Scope R_scope.

(** The sign of a real, as a [comparison] with zero. *)
Definition sgn (r : R) : comparison :=
  if Rlt_dec r 0 then Lt else if Rlt_dec 0 r then Gt else Eq.

Definition inf_of (s : comparison) : float64 :=
  match s with Lt => NInf | Gt => PInf | Eq => NaN end.

Definition flip (s : comparison) : comparison := CompOpp s.

Definition neg (x : float64) : float64 :=
  match x with
  | Fin r => Fin (- r)
  | PInf => NInf
  | NInf => PInf
  | NaN => NaN
  end.

Definition add (x y : float64) : float64 :=
  match x, y with
  | NaN, _ | _, NaN => NaN
  | Fin a, Fin b => Fin (a + b)
  | PInf, NInf | NInf, PInf => NaN
  | PInf, _ | _, PInf => PInf
  | NInf, _ | _, NInf => NInf
  end.

Definition sub (x y : float64) : float64 := add x (neg y).

Definition mul (x y : float64) : float64 :=
  match x, y with
  | NaN, _ | _, NaN => NaN
  | Fin a, Fin b => Fin (a * b)
  | PInf, Fin b | Fin b, PInf => inf_of (sgn b)
  | NInf, Fin b | Fin b, NInf => inf_of (flip (sgn b))
  | PInf, PInf | NInf, NInf => PInf
  | PInf, NInf | NInf, PInf => NInf
  end.

(** [x / y]; a finite [x] over zero is [nan] for [x = 0] and an infinity
    otherwise, as numpy computes it (with a warning). *)
Definition div (x y : float64) : float64 :=
  match x, y with
  | NaN, _ | _, NaN => NaN
  | Fin a, Fin b =>
      match sgn b with
      | Eq => inf_of (sgn a)
      | _ => Fin (a / b)
      end
  | Fin _, _ => Fin 0
  | PInf, Fin b => match sgn b with Lt => NInf | _ => PInf end
  | NInf, Fin b => match sgn b with Lt => PInf | _ => NInf end
  | _, _ => NaN
  end.

(** [np.sqrt]: [nan] below zero. *)
Definition sqrt (x : float64) : float64 :=
  match x with
  | Fin r => match sgn r with Lt => NaN | _ => Fin (R_sqrt.sqrt r) end
  | PInf => PInf
  | _ => NaN
  end.

Definition cos (x : float64) : float64 :=
  match x with Fin r => Fin (Rtrigo_def.cos r) | _ => NaN end.

Definition sin (x : float64) : float64 :=
  match x with Fin r => Fin (Rtrigo_def.sin r) | _ => NaN end.

(** [np.deg2rad x] is [x * (pi / 180)]. *)
Definition deg2rad (x : float64) : float64 := mul x (Fin (PI / 180)).

(** [np.floor]: the result is again a float. *)
Definition floor (x : float64) : float64 :=
  match x with Fin r => Fin (IZR (Int_part r)) | _ => x end.

(** [float(i)] of a Python int. *)
Definition of_Z (z : Z) : float64 := Fin (IZR z).

End F64.

(** The arithmetic that the array code is written over, so that the same
    definitions are read at [float64] (the program) and at [R] (the algebra
    used to reason about runs in which every value is finite). *)

Class Scalar (A : Type) : Type := {
  zero : A;
  one : A;
  add : A -> A -> A;
  sub : A -> A -> A;
  mul : A -> A -> A;
  div : A -> A -> A
}.

#[global] Instance Scalar_float64 : Scalar float64 := {|
  zero := Fin 0;
  one := Fin 1;
  add := F64.add;
  sub := F64.sub;
  mul := F64.mul;
  div := F64.div
|}.

#[global] Instance Scalar_R : Scalar R := {|
  zero := 0%R;
  one := 1%R;
  add := Rplus;
  sub := Rminus;
  mul := Rmult;
  div := Rdiv
|}.

(** ** Fixed-shape arrays: 3- and 4-vectors, 3x3 and 4x4 matrices (rows) *)

Section Arrays.

Context {A : Type}.

Record vec3 : Type := V3 { x0 : A; x1 : A; x2 : A }.
Record vec4 : Type := V4 { y0 : A; y1 : A; y2 : A; y3 : A }.

Definition get3 (v : vec3) (i : nat) : A :=
  match i with 0 => x0 v | 1 => x1 v | _ => x2 v end.

Definition get4 (v : vec4) (i : nat) : A :=
  match i with 0 => y0 v | 1 => y1 v | 2 => y2 v | _ => y3 v end.

Definition set4 (v : vec4) (i : nat) (a : A) : vec4 :=
  match i with
  | 0 => V4 a (y1 v) (y2 v) (y3 v)
  | 1 => V4 (y0 v) a (y2 v) (y3 v)
  | 2 => V4 (y0 v) (y1 v) a (y3 v)
  | _ => V4 (y0 v) (y1 v) (y2 v) a
  end.

Definition list3 (v : vec3) : list A := [x0 v; x1 v; x2 v].
Definition list4 (v : vec4) : list A := [y0 v; y1 v; y2 v; y3 v].

(** [v[0:3]] *)
Definition head3 (v : vec4) : vec3 := V3 (y0 v) (y1 v) (y2 v).

(** The vector without its [i]-th component. *)
Definition drop4 (i : nat) (v : vec4) : vec3 :=
  match i with
  | 0 => V3 (y1 v) (y2 v) (y3 v)
  | 1 => V3 (y0 v) (y2 v) (y3 v)
  | 2 => V3 (y0 v) (y1 v) (y3 v)
  | _ => V3 (y0 v) (y1 v) (y2 v)
  end.

End Arrays.

Arguments vec3 A : clear implicits.
Arguments vec4 A : clear implicits.

Definition vmap3 {A B : Type} (f : A -> B) (v : vec3 A) : vec3 B :=
  V3 (f (x0 v)) (f (x1 v)) (f (x2 v)).

Definition vmap4 {A B : Type} (f : A -> B) (v : vec4 A) : vec4 B :=
  V4 (f (y0 v)) (f (y1 v)) (f (y2 v)) (f (y3 v)).

Definition vzip3 {A B C : Type} (f : A -> B -> C) (u : vec3 A) (v : vec3 B) : vec3 C :=
  V3 (f (x0 u) (x0 v)) (f (x1 u) (x1 v)) (f (x2 u) (x2 v)).

Definition vzip4 {A B C : Type} (f : A -> B -> C) (u : vec4 A) (v : vec4 B) : vec4 C :=
  V4 (f (y0 u) (y0 v)) (f (y1 u) (y1 v)) (f (y2 u) (y2 v)) (f (y3 u) (y3 v)).

Definition mat3 (A : Type) : Type := vec3 (vec3 A).
Definition mat4 (A : Type) : Type := vec4 (vec4 A).

Definition mmap4 {A B : Type} (f : A -> B) (m : mat4 A) : mat4 B :=
  vmap4 (vmap4 f) m.

Section Linear.

Context {A : Type} `{Scalar A}.

(** [m[i][j]] and [m[i][j] = a] *)
Definition getm (m : mat4 A) (i j : nat) : A := get4 (get4 m i) j.

Definition setm (m : mat4 A) (i j : nat) (a : A) : mat4 A :=
  set4 m i (set4 (get4 m i) j a).

(** [np.identity(4)] *)
Definition identity4 : mat4 A :=
  V4 (V4 one zero zero zero)
     (V4 zero one zero zero)
     (V4 zero zero one zero)
     (V4 zero zero zero one).

(** [m[0:4, j]] and [m[0:3, j]] *)
Definition col4 (m : mat4 A) (j : nat) : vec4 A := vmap4 (fun r => get4 r j) m.
Definition col3 (m : mat4 A) (j : nat) : vec3 A := head3 (col4 m j).

Definition vadd3 (u v : vec3 A) : vec3 A := vzip3 add u v.

Definition dot4 (u v : vec4 A) : A :=
  add (add (add (mul (y0 u) (y0 v)) (mul (y1 u) (y1 v))) (mul (y2 u) (y2 v)))
      (mul (y3 u) (y3 v)).

(** The matrix product of [np.matrix] values. *)
Definition mvmul (m : mat4 A) (v : vec4 A) : vec4 A :=
  vmap4 (fun r => dot4 r v) m.

Definition mmul (m n : mat4 A) : mat4 A :=
  vmap4 (fun r => V4 (dot4 r (col4 n 0)) (dot4 r (col4 n 1))
                     (dot4 r (col4 n 2)) (dot4 r (col4 n 3))) m.

(** Determinants by cofactor expansion, and the adjugate. *)
Definition det3 (m : mat3 A) : A :=
  let '(V3 (V3 a b c) (V3 d e f) (V3 g h i)) := m in
  add (sub (mul a (sub (mul e i) (mul f h)))
           (mul b (sub (mul d i) (mul f g))))
      (mul c (sub (mul d h) (mul e g))).

Definition minor (m : mat4 A) (i j : nat) : mat3 A :=
  vmap3 (drop4 j) (drop4 i m).

Definition cofactor (m : mat4 A) (i j : nat) : A :=
  if Nat.even (i + j) then det3 (minor m i j)
  else sub zero (det3 (minor m i j)).

Definition det4 (m : mat4 A) : A :=
  add (add (add (mul (getm m 0 0) (cofactor m 0 0))
                (mul (getm m 0 1) (cofactor m 0 1)))
           (mul (getm m 0 2) (cofactor m 0 2)))
      (mul (getm m 0 3) (cofactor m 0 3)).

Definition adjugate (m : mat4 A) : mat4 A :=
  V4 (V4 (cofactor m 0 0) (cofactor m 1 0) (cofactor m 2 0) (cofactor m 3 0))
     (V4 (cofactor m 0 1) (cofactor m 1 1) (cofactor m 2 1) (cofactor m 3 1))
     (V4 (cofactor m 0 2) (cofactor m 1 2) (cofactor m 2 2) (cofactor m 3 2))
     (V4 (cofactor m 0 3) (cofactor m 1 3) (cofactor m 2 3) (cofactor m 3 3)).

(** The inverse by Cramer's rule, where the determinant is not zero. *)
Definition cramer (m : mat4 A) : mat4 A :=
  mmap4 (fun a => div a (det4 m)) (adjugate m).

End Linear.

(** ** [cellbasis] (supercell.py lines 10-23, cell_axes.py lines 11-24) *)

Local Open Scope result_scope.

Definition matrix : Type := mat4 float64.

(** [l[i]] of a Python list. *)
Definition index {A : Type} (l : list A) (i : nat) : result A :=
  match nth_error l i with
  | Some a => Ok a
  | None => Raise IndexError
  end.

(** [x ** 2] *)
Definition pow2 (x : float64) : float64 := mul x x.

(** [basis * edges]: the product of a 4x4 array with a Python list, by
    numpy's broadcasting.  A list of four numbers scales the columns, a
    list of one number scales every entry, any other length is a
    [ValueError]. *)
Definition broadcast_mul (basis : matrix) (edges : list float64) : result matrix :=
  match edges with
  | [e] => Ok (mmap4 (fun a => mul a e) basis)
  | [e0; e1; e2; e3] => Ok (vmap4 (fun r => vzip4 mul r (V4 e0 e1 e2 e3)) basis)
  | _ => Raise ValueError
  end.

(** Lines 15-21: the matrix before it is scaled by the edges. *)
Definition unit_basis (angles : list float64) : result matrix :=
  let rad := map F64.deg2rad angles in
  let basis := identity4 in
  g <- index rad 2 ;;
  let basis := setm basis 0 1 (F64.cos g) in
  g <- index rad 2 ;;
  let basis := setm basis 1 1 (F64.sin g) in
  b <- index rad 1 ;;
  let basis := setm basis 0 2 (F64.cos b) in
  a <- index rad 0 ;;
  let basis :=
    setm basis 1 2
      (div (sub (F64.cos a) (mul (getm basis 0 1) (getm basis 0 2)))
           (getm basis 1 1)) in
  let basis :=
    setm basis 2 2
      (F64.sqrt (sub (sub one (pow2 (getm basis 0 2))) (pow2 (getm basis 1 2)))) in
  Ok basis.

(** The two Python lists a call of [cellbasis] is given.  Lists are mutable
    objects: the call returns its result together with the lists as they
    are when it ends. *)
Record arglists : Type := Args {
  arg_angles : list float64;
  arg_edges : list float64
}.

Definition cellbasis (angles edges : list float64) : result matrix * arglists :=
  match unit_basis angles with
  | Raise e => (Raise e, Args angles edges)
  | Ok basis =>
      (* edges.append(1.0) *)
      let edges := edges ++ [Fin 1] in
      (broadcast_mul basis edges, Args angles edges)
  end.

(** [np.linalg.norm] of a 3-vector (cell_axes.py lines 134-142). *)
Definition norm (v : vec3 float64) : float64 :=
  F64.sqrt (add (add (pow2 (x0 v)) (pow2 (x1 v))) (pow2 (x2 v))).

(** ** Finite runs *)

Definition finV3 (v : vec3 R) : vec3 float64 := vmap3 Fin v.
Definition finV (v : vec4 R) : vec4 float64 := vmap4 Fin v.
Definition finM (m : mat4 R) : matrix := mmap4 Fin m.

Section CellFormulas.

Local Open Scope R_scope.

Definition rad_of (deg : R) : R := deg * (PI / 180).

(** [basis[1][2]] before scaling, and the radicand of [basis[2][2]]. *)
Definition skew (al be ga : R) : R :=
  (cos (rad_of al) + - (cos (rad_of ga) * cos (rad_of be))) / sin (rad_of ga).

Definition radicand (al be ga : R) : R :=
  1 + - (cos (rad_of be) * cos (rad_of be)) + - (skew al be ga * skew al be ga).

Definition unit_formula (al be ga : R) : mat4 R :=
  V4 (V4 1 (cos (rad_of ga)) (cos (rad_of be)) 0)
     (V4 0 (sin (rad_of ga)) (skew al be ga) 0)
     (V4 0 0 (sqrt (radicand al be ga)) 0)
     (V4 0 0 0 1).

Definition basis_formula (al be ga a b c : R) : mat4 R :=
  V4 (V4 a (cos (rad_of ga) * b) (cos (rad_of be) * c) 0)
     (V4 0 (sin (rad_of ga) * b) (skew al be ga * c) 0)
     (V4 0 0 (sqrt (radicand al be ga) * c) 0)
     (V4 0 0 0 1).

Definition diag4 (a b c d : R) : mat4 R :=
  V4 (V4 a 0 0 0) (V4 0 b 0 0) (V4 0 0 c 0) (V4 0 0 0 d).

End CellFormulas.

(** ** The host application *)

(** [cmd.get_symmetry(object)]: the list [[a, b, c, alpha, beta, gamma,
    spacegroup]]. *)
Record symmetry : Type := Sym {
  sym_cell : vec3 float64 * vec3 float64;
  sym_spacegroup : string
}.

Definition sym_numbers (s : symmetry) : list float64 :=
  list3 (fst (sym_cell s)) ++ list3 (snd (sym_cell s)).

(** [l[i:j]] *)
Definition slice {A : Type} (l : list A) (i j : nat) : list A :=
  firstn (j - i) (skipn i l).

(** The calls that read the scene.  They may fail, and the failure is
    passed on unchanged.  What they return for the reference object is
    taken not to change while the scripts run: the copies are created under
    new names. *)
Record Host : Type := {
  get_object_list : result (list string);
  get_symmetry : string -> result symmetry;
  get_extent : string -> result (vec3 float64 * vec3 float64);
  sg_sym_to_mat_list : string -> result (list matrix);
  get_color_tuple : string -> result (list float64)
}.

(** The entries of a compiled graphics object. *)
Inductive cgo : Type :=
| BEGIN
| LINES
| COLOR
| VERTEX
| END
| Num (x : float64).

(** The calls that change the scene. *)
Inductive HostCmd : Type :=
| Create (name selection : string)
| TransformObject (name : string) (mat_list : list float64) (state : Z)
| Color (color : Z) (name : string)
| Delete (name : string)
| LoadCgo (obj : list cgo) (name : string).

(** A computation that may raise and that appends to the log of scene
    changes; what was logged before an exception stays logged. *)
Definition host (A : Type) : Type := list HostCmd -> result A * list HostCmd.

Definition hret {A : Type} (a : A) : host A := fun log => (Ok a, log).

Definition hbind {A B : Type} (m : host A) (k : A -> host B) : host B :=
  fun log =>
    match m log with
    | (Ok a, log') => k a log'
    | (Raise e, log') => (Raise e, log')
    end.

Definition lift {A : Type} (r : result A) : host A := fun log => (r, log).

Definition emit (c : HostCmd) : host unit := fun log => (Ok tt, log ++ [c]).

Declare Scope host_scope.
Delimit Scope host_scope with host.
Notation "x <- m ;; k" := (hbind m (fun x => k))
  (at level 61, m at next level, right associativity) : host_scope.
Notation "m ;; k" := (hbind m (fun _ => k))
  (at level 61, right associativity) : host_scope.

(** [for a in l: s = body(a, s)] *)
Fixpoint for_each {S A : Type} (l : list A) (body : A -> S -> host S) (s : S) : host S :=
  match l with
  | [] => hret s
  | a :: l' => hbind (body a s) (for_each l' body)
  end.

(** ** [symexpcell] (supercell.py lines 108-165) *)

(** [np.linalg.inv], behind [basis.I]: [LinAlgError] on a singular matrix,
    the inverse otherwise. *)
Definition inv (m : matrix) : result matrix :=
  match det4 m with
  | Fin d =>
      match F64.sgn d with
      | Eq => Raise LinAlgError
      | _ => Ok (cramer m)
      end
  | _ => Ok (cramer m)
  end.

(** ["%d" % z] *)
Definition dec (z : Z) : string := NilZero.string_of_int (Z.to_int z).

(** [list(mat.flat)] *)
Definition flat {A : Type} (m : mat4 A) : list A :=
  list4 (y0 m) ++ list4 (y1 m) ++ list4 (y2 m) ++ list4 (y3 m).

(** [mat[0:3, j] -= v] and [mat[0:3, j] += v] *)
Definition isub_col {A : Type} `{Scalar A} (mat : mat4 A) (j : nat) (v : vec3 A) : mat4 A :=
  let mat := setm mat 0 j (sub (getm mat 0 j) (x0 v)) in
  let mat := setm mat 1 j (sub (getm mat 1 j) (x1 v)) in
  setm mat 2 j (sub (getm mat 2 j) (x2 v)).

Definition iadd_col {A : Type} `{Scalar A} (mat : mat4 A) (j : nat) (v : vec3 A) : mat4 A :=
  let mat := setm mat 0 j (add (getm mat 0 j) (x0 v)) in
  let mat := setm mat 1 j (add (getm mat 1 j) (x1 v)) in
  setm mat 2 j (add (getm mat 2 j) (x2 v)).

(** Lines 155-157: the operator with its translation wrapped into the
    origin cell and moved into the requested cell. *)
Definition adjust_mat (mat : matrix) (center_cell : vec4 float64)
    (extra_shift : vec3 float64) : matrix :=
  let shift := vmap4 F64.floor (mvmul mat center_cell) in
  let mat := isub_col mat 3 (head3 shift) in
  let mat := iadd_col mat 3 extra_shift in
  mat.

(** Line 159. *)
Definition model_mat (basis mat : matrix) : result matrix :=
  binv <- inv basis ;;
  Ok (mmul (mmul basis mat) binv).

Local Open Scope host_scope.

(** Lines 151-165: the loop over the operators, [i] counting them. *)
Fixpoint place_loop (prefix object : string) (basis : matrix)
    (center_cell : vec4 float64) (extra_shift : vec3 float64)
    (i : Z) (matrices : list matrix) : host unit :=
  match matrices with
  | [] => hret tt
  | mat :: rest =>
      let i := (i + 1)%Z in
      let mat := adjust_mat mat center_cell extra_shift in
      mat <- lift (model_mat basis mat) ;;
      let mat_list := flat mat in
      let name := (prefix ++ dec i)%string in
      emit (Create name object) ;;
      emit (TransformObject name mat_list 0) ;;
      emit (Color (i + 1) name) ;;
      place_loop prefix object basis center_cell extra_shift i rest
  end.

(** Lines 145-165, for a basis and the centre [[x, y, z, 1.0]] of the
    object's extent. *)
Definition place_mates (h : Host) (prefix object : string) (basis : matrix)
    (center : vec4 float64) (a b c : Z) (spacegroup : string) : host unit :=
  binv <- lift (inv basis) ;;
  let center_cell := mvmul binv center in
  let extra_shift := V3 (F64.of_Z a) (F64.of_Z b) (F64.of_Z c) in
  matrices <- lift (sg_sym_to_mat_list h spacegroup) ;;
  place_loop prefix object basis center_cell extra_shift 0 matrices.

(** [object = cmd.get_object_list()[0]] when no object is given. *)
Definition default_object (h : Host) (object : option string) : result string :=
  match object with
  | Some o => Ok o
  | None => rbind (get_object_list h) (fun l => index l 0)
  end.

(** Lines 142-144: [sum(np.array(extent)) * 0.5], then [1.0] appended. *)
Definition extent_center (extent : vec3 float64 * vec3 float64) : vec4 float64 :=
  let s := vadd3 (vmap3 (add zero) (fst extent)) (snd extent) in
  let center := vmap3 (fun x => mul x (Fin (1 / 2))) s in
  V4 (x0 center) (x1 center) (x2 center) (Fin 1).

(** [cell_edges] is a slice, a new list: the [append] in [cellbasis]
    changes that list and not [sym], and the list is not read again. *)
Definition symexpcell (h : Host) (prefix : string) (object : option string)
    (a b c : Z) : host unit :=
  object <- lift (default_object h object) ;;
  sym <- lift (get_symmetry h object) ;;
  let cell_edges := slice (sym_numbers sym) 0 3 in
  let cell_angles := slice (sym_numbers sym) 3 6 in
  let spacegroup := sym_spacegroup sym in
  basis <- lift (fst (cellbasis cell_angles cell_edges)) ;;
  extent <- lift (get_extent h object) ;;
  let center := extent_center extent in
  place_mates h prefix object basis center a b c spacegroup.

(** ** [supercell] (supercell.py lines 26-105) *)

(** [range(n)] *)
Definition range (n : Z) : list Z := map Z.of_nat (seq 0 (Z.to_nat n)).

(** Lines 68-72: the list [ts]. *)
Definition cells (a b c : Z) : list (Z * Z * Z) :=
  flat_map (fun i =>
    flat_map (fun j =>
      map (fun k => (i, j, k)) (range c)) (range b)) (range a).

(** Lines 82-83: the origin of the cell [t]. *)
Definition cell_shift (basis : matrix) (t : Z * Z * Z) : vec3 float64 :=
  let '(t0, t1, t2) := t in
  let scaled := fun j tj => vmap3 (fun x => mul x (F64.of_Z tj)) (col3 basis j) in
  vadd3 (vadd3 (scaled 0 t0) (scaled 1 t1)) (scaled 2 t2).

Definition vertex (v : vec3 float64) : list cgo := VERTEX :: map Num (list3 v).

(** Lines 86-97: the four edges of a cell along axis [i]. *)
Definition axis_edges (basis : matrix) (shift : vec3 float64) (i : nat) : list cgo :=
  let vi := col3 basis i in
  let vj := [ V3 (Fin 0) (Fin 0) (Fin 0);
              col3 basis ((i + 1) mod 3);
              col3 basis ((i + 2) mod 3);
              vadd3 (col3 basis ((i + 1) mod 3)) (col3 basis ((i + 2) mod 3)) ] in
  flat_map (fun v => vertex (vadd3 shift v) ++ vertex (vadd3 (vadd3 shift v) vi)) vj.

(** ["m%d%d%d_" % tuple(t)] *)
Definition mate_prefix (t : Z * Z * Z) : string :=
  let '(t0, t1, t2) := t in
  ("m" ++ dec t0 ++ dec t1 ++ dec t2 ++ "_")%string.

(** Lines 85-100: the body of the loop over [i], for the cell [t].  The
    call of [symexpcell] at lines 99-100 belongs to this body. *)
Definition axis_step (h : Host) (object : string) (withmates : Z) (basis : matrix)
    (t : Z * Z * Z) (i : nat) (obj : list cgo) : host (list cgo) :=
  let shift := cell_shift basis t in
  let obj := obj ++ axis_edges basis shift i in
  (if (withmates =? 0)%Z then hret tt
   else let '(t0, t1, t2) := t in
        symexpcell h (mate_prefix t) (Some object) t0 t1 t2) ;;
  hret obj.

Definition supercell (h : Host) (a b c : Z) (object : option string)
    (color name : string) (withmates : Z) : host unit :=
  object <- lift (default_object h object) ;;
  sym <- lift (get_symmetry h object) ;;
  let cell_edges := slice (sym_numbers sym) 0 3 in
  let cell_angles := slice (sym_numbers sym) 3 6 in
  basis <- lift (fst (cellbasis cell_angles cell_edges)) ;;
  let ts := cells a b c in
  rgb <- lift (get_color_tuple h color) ;;
  let obj := [BEGIN; LINES; COLOR] ++ map Num rgb in
  obj <- for_each ts
           (fun t obj => for_each [0; 1; 2]%nat (axis_step h object withmates basis t) obj)
           obj ;;
  let obj := obj ++ [END] in
  emit (Delete name) ;;
  emit (LoadCgo obj name).

Local Close Scope host_scope.

(** ** Definitions used to state the properties *)

(** [basis[1][2]] and [basis[2][2]] of [cellbasis], before scaling, for
    finite angles. *)
Definition skew64 (al be ga : R) : float64 :=
  F64.div (Fin (cos (rad_of al) + - (cos (rad_of ga) * cos (rad_of be))))
          (Fin (sin (rad_of ga))).

Definition height64 (al be ga : R) : float64 :=
  F64.sqrt (F64.sub (F64.sub (Fin 1) (pow2 (Fin (cos (rad_of be)))))
                    (pow2 (skew64 al be ga))).

(** The lexicographic order on index triples, first component first. *)
Definition lex_lt (s t : Z * Z * Z) : Prop :=
  let '(i, j, k) := s in
  let '(i', j', k') := t in
  (i < i' \/ (i = i' /\ (j < j' \/ (j = j' /\ k < k'))))%Z.

(** A point [[x, y, z]] as the column [[x, y, z, 1]]. *)
Definition homogeneous (p : vec3 R) : vec4 R := V4 (x0 p) (x1 p) (x2 p) 1%R.

(** The fractional coordinates of a point: [basis^-1 . [p; 1]]. *)
Definition frac_coords (basis : mat4 R) (p : vec3 R) : vec4 R :=
  mvmul (cramer basis) (homogeneous p).

(** The last row of an affine matrix. *)
Definition affine (m : mat4 R) : Prop := y3 m = V4 0%R 0%R 0%R 1%R.

(** [floor] on the reals. *)
Definition Rfloor (x : R) : R := IZR (Int_part x).

(** [adjust_mat] on finite values. *)
Definition adjust_formula (mat : mat4 R) (center_cell : vec4 R) (extra_shift : vec3 R)
  : mat4 R :=
  let shift := vmap4 Rfloor (mvmul mat center_cell) in
  iadd_col (isub_col mat 3 (head3 shift)) 3 extra_shift.

(** The translation by [v], as a 4x4 matrix. *)
Definition translation (v : vec3 R) : mat4 R :=
  V4 (V4 1%R 0%R 0%R (x0 v)) (V4 0%R 1%R 0%R (x1 v)) (V4 0%R 0%R 1%R (x2 v))
     (V4 0%R 0%R 0%R 1%R).

(** What the loop of [symexpcell] logs for the model-space matrices
    [transforms], the counter standing at [i]. *)
Fixpoint mate_cmds (prefix object : string) (i : Z) (transforms : list matrix)
  : list HostCmd :=
  match transforms with
  | [] => []
  | m :: rest =>
      let i := (i + 1)%Z in
      let name := (prefix ++ dec i)%string in
      Create name object :: TransformObject name (flat m) 0 :: Color (i + 1) name
        :: mate_cmds prefix object i rest
  end.

(** The wireframe [supercell] draws for the cell [t]: lines 85-97 for the
    three axes. *)
Definition cell_wireframe (basis : matrix) (t : Z * Z * Z) : list cgo :=
  flat_map (axis_edges basis (cell_shift basis t)) [0; 1; 2]%nat.

Definition is_vertex (c : cgo) : bool :=
  match c with VERTEX => true | _ => false end.

(** The number of segment endpoints in a list of graphics entries. *)
Definition endpoints (obj : list cgo) : nat := List.length (filter is_vertex obj).

(** The centre of the box with corners [lo] and [hi]. *)
Definition extent_mid (lo hi : vec3 R) : vec3 R :=
  vmap3 (fun x => x * (1 / 2))%R (vzip3 Rplus (vmap3 (Rplus 0) lo) hi).

(** The cell of the scenario: edges 10, 20, 30, all angles 90 degrees,
    space group P1. *)
Definition p1_symmetry : symmetry :=
  Sym (V3 (Fin 10) (Fin 20) (Fin 30), V3 (Fin 90) (Fin 90) (Fin 90)) "P1".

(** Where the copy made for the cell [t] is moved: the Cartesian offset of
    [t] less the cell that holds the centre [p] of the object. *)
Definition p1_offset (p : vec3 R) (t : Z * Z * Z) : vec3 R :=
  let '(t0, t1, t2) := t in
  V3 (10 * (IZR t0 - Rfloor (x0 p / 10)))%R
     (20 * (IZR t1 - Rfloor (x1 p / 20)))%R
     (30 * (IZR t2 - Rfloor (x2 p / 30)))%R.

(** The three calls [symexpcell] makes for the one operator of P1. *)
Definition p1_mate (object : string) (p : vec3 R) (t : Z * Z * Z) : list HostCmd :=
  mate_cmds (mate_prefix t) object 0 [finM (translation (p1_offset p t))].

(** A host for the scenario: one object, with the cell above, whose extent
    is the box from [lo] to [hi]; P1 has the identity as its only operator,
    any other symbol has none. *)
Definition p1_host (lo hi : vec3 R) : Host := {|
  get_object_list := Ok ["obj"%string];
  get_symmetry := fun _ => Ok p1_symmetry;
  get_extent := fun _ => Ok (finV3 lo, finV3 hi);
  sg_sym_to_mat_list := fun sg => if String.eqb sg "P1" then Ok [identity4] else Ok [];
  get_color_tuple := fun _ => Ok [Fin 0; Fin 0; Fin 1]
|}.

(** The same object in a host whose symmetry table has no operators. *)
Definition bare_host (lo hi : vec3 R) : Host := {|
  get_object_list := Ok ["obj"%string];
  get_symmetry := fun _ => Ok p1_symmetry;
  get_extent := fun _ => Ok (finV3 lo, finV3 hi);
  sg_sym_to_mat_list := fun _ => Ok [];
  get_color_tuple := fun _ => Ok [Fin 0; Fin 0; Fin 1]
|}.

(** ** [PutCenterCallback] (cell_axes.py lines 27-65)

    The callback object keeps the last view it has seen.  A call reads the
    scene (the object names, the view, the viewport) and may move the axes
    object; the arithmetic is on Python floats, whose division raises
    [ZeroDivisionError] on a zero divisor. *)

(** [cmd.get_view()]: 18 numbers, the rotation matrix [v[0:9]] by rows,
    the camera position [v[9:12]], the origin of rotation [v[12:15]], the
    clipping planes and the orthoscopic flag [v[15:18]]. *)
Record view : Type := View {
  view_rot : vec3 (vec3 float64);
  view_cam : vec3 float64;
  view_origin : vec3 float64;
  view_clip : vec3 float64
}.

(** What a call of the callback reads from the host. *)
Record scene : Type := Scene {
  scene_names : list string;
  scene_view : view;
  scene_viewport : Z * Z
}.

(** The calls of the callback that change the scene: the thread started
    at line 42, which deletes the callback object, and
    [cmd.set_object_ttt]. *)
Inductive CallbackCmd : Type :=
| SpawnDelete (cb_name : string)
| SetObjectTTT (name : string) (m : list float64).

Inductive py_exn : Type :=
| ZeroDivisionError.

(** [x == y] on floats: [nan] equals nothing. *)
Definition float_eqb (x y : float64) : bool :=
  match x, y with
  | Fin a, Fin b => if Req_dec_T a b then true else false
  | PInf, PInf | NInf, NInf => true
  | _, _ => false
  end.

Definition vec3_eqb (u v : vec3 float64) : bool :=
  float_eqb (x0 u) (x0 v) && float_eqb (x1 u) (x1 v) && float_eqb (x2 u) (x2 v).

(** [v == w] on the tuples of two views, component by component. *)
Definition view_eqb (v w : view) : bool :=
  vec3_eqb (x0 (view_rot v)) (x0 (view_rot w))
  && vec3_eqb (x1 (view_rot v)) (x1 (view_rot w))
  && vec3_eqb (x2 (view_rot v)) (x2 (view_rot w))
  && vec3_eqb (view_cam v) (view_cam w)
  && vec3_eqb (view_origin v) (view_origin w)
  && vec3_eqb (view_clip v) (view_clip w).

(** [x / y] on Python floats. *)
Definition pydiv (x y : float64) : py_exn + float64 :=
  match y with
  | Fin r => match F64.sgn r with Eq => inl ZeroDivisionError | _ => inr (F64.div x y) end
  | _ => inr (F64.div x y)
  end.

(** [chempy.cpv.transform] and [chempy.cpv.add]. *)
Definition cpv_transform (m : vec3 (vec3 float64)) (v : vec3 float64) : vec3 float64 :=
  let row := fun r => add (add (mul (x0 r) (x0 v)) (mul (x1 r) (x1 v))) (mul (x2 r) (x2 v)) in
  V3 (row (x0 m)) (row (x1 m)) (row (x2 m)).

Definition cpv_add (u v : vec3 float64) : vec3 float64 :=
  V3 (add (x0 u) (x0 v)) (add (x1 u) (x1 v)) (add (x2 u) (x2 v)).

Module PutCenterCallback.

(** The attributes of the object; [prev_v] is [None] until a view is seen. *)
Record t : Type := Make {
  name : string;
  corner : Z;
  cb_name : string;
  prev_v : option view
}.

Definition set_prev_v (self : t) (v : view) : t :=
  Make (name self) (corner self) (cb_name self) (Some v).

(** Lines 52-61: the point the axes are put at, for a corner that is not 0. *)
Definition corner_point (self : t) (v : view) (vp : Z * Z) (t0 : vec3 float64)
  : py_exn + vec3 float64 :=
  let R_mc := view_rot v in
  match pydiv (mul (mul (Fin (15 / 100)) (x2 (view_cam v))) (F64.of_Z (fst vp)))
              (F64.of_Z (snd vp)) with
  | inl e => inl e
  | inr x =>
      let off_c := V3 x (mul (Fin (15 / 100)) (x2 (view_cam v))) (Fin 0) in
      let off_c :=
        if ((corner self =? 2) || (corner self =? 3))%Z
        then V3 (mul (x0 off_c) (F64.of_Z (-1))) (x1 off_c) (x2 off_c) else off_c in
      let off_c :=
        if ((corner self =? 3) || (corner self =? 4))%Z
        then V3 (x0 off_c) (mul (x1 off_c) (F64.of_Z (-1))) (x2 off_c) else off_c in
      let off_m := cpv_transform R_mc off_c in
      inr (cpv_add t0 off_m)
  end.

(** Lines 63-64: the matrix handed to [cmd.set_object_ttt]. *)
Definition ttt (v : view) (t0 : vec3 float64) : py_exn + list float64 :=
  match pydiv (F64.neg (x2 (view_cam v))) (Fin 30) with
  | inl e => inl e
  | inr z =>
      match pydiv (x0 t0) z with
      | inl e => inl e
      | inr m12 =>
          match pydiv (x1 t0) z with
          | inl e => inl e
          | inr m13 =>
              match pydiv (x2 t0) z with
              | inl e => inl e
              | inr m14 =>
                  inr [ z; Fin 0; Fin 0; Fin 0;
                        Fin 0; z; Fin 0; Fin 0;
                        Fin 0; Fin 0; z; Fin 0;
                        m12; m13; m14; Fin 1 ]
              end
          end
      end
  end.

(** [__call__]: the exception raised, if any, the object after the call,
    and the commands issued. *)
Definition call (self : t) (sc : scene) : option py_exn * t * list CallbackCmd :=
  if negb (existsb (String.eqb (name self)) (scene_names sc)) then
    (None, self, [SpawnDelete (cb_name self)])
  else
    let v := scene_view sc in
    if match prev_v self with Some p => view_eqb v p | None => false end then
      (None, self, [])
    else
      let self := set_prev_v self v in
      let t0 := view_origin v in
      match (if (corner self =? 0)%Z then inr t0
             else corner_point self v (scene_viewport sc) t0) with
      | inl e => (Some e, self, [])
      | inr t1 =>
          match ttt v t1 with
          | inl e => (Some e, self, [])
          | inr m => (None, self, [SetObjectTTT (name self) m])
          end
      end.

End PutCenterCallback.

(** ** [cell_axes] (cell_axes.py lines 68-147) *)

(** The entries of the graphics object [cell_axes] builds. *)
Inductive arrow_cgo : Type :=
| CYLINDER
| CONE
| Val (x : float64).

(** What [cell_axes] does besides reading the scene: [print],
    [cmd.set], [cmd.load_callback] and [cmd.load_cgo]. *)
Inductive AxesCmd : Type :=
| Print (basis : matrix)
| SetSetting (setting : string) (value : Z)
| LoadCallback (cb : PutCenterCallback.t) (cb_name : string)
| LoadArrows (obj : list arrow_cgo) (name : string).

(** The reads of [cell_axes]: those of [Host], and [cmd.get_unused_name]. *)
Record AxesHost : Type := {
  axes_host : Host;
  get_unused_name : string -> result string
}.

(** Computations that may raise and that log [AxesCmd] values. *)
Definition axes (A : Type) : Type := list AxesCmd -> result A * list AxesCmd.

Definition abind {A B : Type} (m : axes A) (k : A -> axes B) : axes B :=
  fun log =>
    match m log with
    | (Ok a, log') => k a log'
    | (Raise e, log') => (Raise e, log')
    end.

Definition alift {A : Type} (r : result A) : axes A := fun log => (r, log).

Definition aemit (c : AxesCmd) : axes unit := fun log => (Ok tt, log ++ [c]).

Declare Scope axes_scope.
Delimit Scope axes_scope with axes.
Notation "x <- m ;; k" := (abind m (fun x => k))
  (at level 61, m at next level, right associativity) : axes_scope.
Notation "m ;; k" := (abind m (fun _ => k))
  (at level 61, right associativity) : axes_scope.

(** The sizes of an arrow, lines 103-106. *)
Definition arrow_w : R := 6 / 100.
Definition arrow_l : R := 75 / 100.
Definition arrow_h : R := 25 / 100.
Definition arrow_d : R := arrow_w * (1618 / 1000).

(** [np.isclose(x, 0.0, atol=eps)], with numpy's [rtol] of 1e-5: false on
    [inf] and [nan]. *)
Definition isclose0 (eps : R) (x : float64) : bool :=
  match x with
  | Fin r =>
      if Rle_dec (Rabs (r - 0)) (eps + 1 / 100000 * Rabs 0) then true else false
  | _ => false
  end.

(** [np.where(np.isclose(r, 0.0, atol=eps), 0.0, r)] *)
Definition snap (eps : R) (r : vec3 float64) : vec3 float64 :=
  vmap3 (fun x => if isclose0 eps x then Fin 0 else x) r.

(** [add_axis_arrrow], lines 109-131, with its default [eps] of 1e-5. *)
Definition add_axis_arrrow (obj : list arrow_cgo) (r : vec3 float64) (rgb : list float64)
  : list arrow_cgo :=
  let r := snap (1 / 100000) r in
  let obj :=
    obj ++ ([CYLINDER; Val (Fin 0); Val (Fin 0); Val (Fin 0);
             Val (mul (Fin arrow_l) (x0 r)); Val (mul (Fin arrow_l) (x1 r));
             Val (mul (Fin arrow_l) (x2 r)); Val (Fin arrow_w)]
            ++ map Val rgb ++ map Val rgb) in
  let obj :=
    obj ++ ([CONE;
             Val (mul (Fin arrow_l) (x0 r)); Val (mul (Fin arrow_l) (x1 r));
             Val (mul (Fin arrow_l) (x2 r));
             Val (mul (Fin (arrow_h + arrow_l)) (x0 r));
             Val (mul (Fin (arrow_h + arrow_l)) (x1 r));
             Val (mul (Fin (arrow_h + arrow_l)) (x2 r));
             Val (Fin arrow_d); Val (Fin 0)]
            ++ map Val rgb ++ map Val rgb ++ [Val (Fin 1); Val (Fin 1)]) in
  obj.

(** [A / np.linalg.norm(A)] *)
Definition normalized (v : vec3 float64) : vec3 float64 :=
  vmap3 (fun x => div x (norm v)) v.

Local Open Scope axes_scope.

Definition cell_axes (h : AxesHost) (object : option string)
    (a_color b_color c_color name : string) : axes unit :=
  object <- alift (default_object (axes_host h) object) ;;
  sym <- alift (get_symmetry (axes_host h) object) ;;
  let cell_edges := slice (sym_numbers sym) 0 3 in
  let cell_angles := slice (sym_numbers sym) 3 6 in
  basis <- alift (fst (cellbasis cell_angles cell_edges)) ;;
  aemit (Print basis) ;;
  aemit (SetSetting "auto_zoom" 0) ;;
  let obj := [] in
  let A := col3 basis 0 in
  let B := col3 basis 1 in
  let C := col3 basis 2 in
  let r := normalized A in
  rgb <- alift (get_color_tuple (axes_host h) a_color) ;;
  let obj := add_axis_arrrow obj r rgb in
  let r := normalized B in
  rgb <- alift (get_color_tuple (axes_host h) b_color) ;;
  let obj := add_axis_arrrow obj r rgb in
  let r := normalized C in
  rgb <- alift (get_color_tuple (axes_host h) c_color) ;;
  let obj := add_axis_arrrow obj r rgb in
  (* PutCenterCallback(name, 1).load() *)
  cb_name <- alift (get_unused_name h "_cb") ;;
  let cb := PutCenterCallback.Make name 1 cb_name None in
  aemit (LoadCallback cb cb_name) ;;
  aemit (LoadArrows obj name).

Local Close Scope axes_scope.

(** ** Further definitions used to state properties *)


(** [basis[0:3, 0:3] . e]: the Cartesian image of a lattice vector. *)
Definition lattice_vector (basis : mat4 R) (e : vec3 R) : vec3 R :=
  V3 (getm basis 0 0 * x0 e + getm basis 0 1 * x1 e + getm basis 0 2 * x2 e)%R
     (getm basis 1 0 * x0 e + getm basis 1 1 * x1 e + getm basis 1 2 * x2 e)%R
     (getm basis 2 0 * x0 e + getm basis 2 1 * x1 e + getm basis 2 2 * x2 e)%R.

(** The model-space matrix [symexpcell] computes for an operator (lines
    155-159), the inverse of the basis being [binv]. *)
Definition mate_transform (basis binv : matrix) (center_cell : vec4 float64)
    (t : Z * Z * Z) (mat : matrix) : matrix :=
  let '(t0, t1, t2) := t in
  mmul (mmul basis
          (adjust_mat mat center_cell (V3 (F64.of_Z t0) (F64.of_Z t1) (F64.of_Z t2))))
       binv.

(** A cell of edges 10, 20 and 0, whose basis cannot be inverted. *)
Definition flat_host : Host := {|
  get_object_list := Ok ["obj"%string];
  get_symmetry := fun _ =>
    Ok (Sym (V3 (Fin 10) (Fin 20) (Fin 0), V3 (Fin 90) (Fin 90) (Fin 90)) "P1");
  get_extent := fun _ => Ok (finV3 (V3 0 0 0)%R, finV3 (V3 10 10 10)%R);
  sg_sym_to_mat_list := fun _ => Ok [identity4];
  get_color_tuple := fun _ => Ok [Fin 0; Fin 0; Fin 1]
|}.

(** The graphics object [supercell] loads: the header with the colour, the
    wireframes of the cells in the order of [ts], and the end marker. *)
Definition supercell_obj (basis : matrix) (rgb : list float64) (ts : list (Z * Z * Z))
  : list cgo :=
  [BEGIN; LINES; COLOR] ++ map Num rgb ++ flat_map (cell_wireframe basis) ts ++ [END].

(** The commands one call of [symexpcell] logs for the cell [t]. *)
Definition cell_mates (object : string) (basis binv : matrix)
    (center_cell : vec4 float64) (matrices : list matrix) (t : Z * Z * Z)
  : list HostCmd :=
  mate_cmds (mate_prefix t) object 0
    (map (mate_transform basis binv center_cell t) matrices).

(** A view with finite entries. *)
Definition fin_view (rot : vec3 (vec3 R)) (cam origin clip : vec3 R) : view :=
  View (vmap3 finV3 rot) (finV3 cam) (finV3 origin) (finV3 clip).

(** A scene that holds the axes object: the camera looks down z from the
    distance 100 at the point (1, 2, 3), in a 640 x 480 window. *)
Definition sample_view : view :=
  fin_view (V3 (V3 1 0 0) (V3 0 1 0) (V3 0 0 1))%R (V3 0 0 (-100))%R (V3 1 2 3)%R
           (V3 80 120 0)%R.

Definition sample_scene : scene :=
  Scene ["obj"%string; "cell_axes"%string] sample_view (640, 480)%Z.

(** The callback object [cell_axes] loads, before its first call. *)
Definition sample_callback (corner : Z) : PutCenterCallback.t :=
  PutCenterCallback.Make "cell_axes" corner "_cb01" None.

(** The numbers of cylinders and of cones in a graphics object. *)
Definition cylinders (obj : list arrow_cgo) : nat :=
  List.length (filter (fun c => match c with CYLINDER => true | _ => false end) obj).

Definition cones (obj : list arrow_cgo) : nat :=
  List.length (filter (fun c => match c with CONE => true | _ => false end) obj).



(** * Properties

    ** Tactics and extensionality *)

Lemma V3_ext {A : Type} (a b c a' b' c' : A) :
  a = a' -> b = b' -> c = c' -> V3 a b c = V3 a' b' c'.
Proof. congruence. Qed.

Lemma V4_ext {A : Type} (a b c d a' b' c' d' : A) :
  a = a' -> b = b' -> c = c' -> d = d' -> V4 a b c d = V4 a' b' c' d'.
Proof. congruence. Qed.

Lemma Fin_ext (a b : R) : a = b -> Fin a = Fin b.
Proof. congruence. Qed.

Lemma Ok_ext {A : Type} (a b : A) : a = b -> Ok a = Ok b.
Proof. congruence. Qed.

Ltac array_ext :=
  repeat first [ apply Ok_ext | apply V4_ext | apply V3_ext | apply Fin_ext ].

(** ** Signs, and when the operations stay finite *)

Lemma sgn_neq (r : R) : r <> 0%R -> F64.sgn r <> Eq.
Proof.
  intros Hr. unfold F64.sgn.
  destruct (Rlt_dec r 0); [discriminate|].
  destruct (Rlt_dec 0 r); [discriminate|]. lra.
Qed.

Lemma sgn_zero : F64.sgn 0 = Eq.
Proof.
  unfold F64.sgn.
  destruct (Rlt_dec 0 0); [lra|]. reflexivity.
Qed.

Lemma sgn_nonneg (r : R) : (0 <= r)%R -> F64.sgn r <> Lt.
Proof.
  intros Hr. unfold F64.sgn.
  destruct (Rlt_dec r 0); [lra|].
  destruct (Rlt_dec 0 r); discriminate.
Qed.


Lemma div_fin (a b : R) : b <> 0%R -> F64.div (Fin a) (Fin b) = Fin (a / b).
Proof.
  intros Hb. cbn. pose proof (sgn_neq _ Hb).
  destruct (F64.sgn b); congruence.
Qed.

Lemma sqrt_fin (r : R) : (0 <= r)%R -> F64.sqrt (Fin r) = Fin (sqrt r).
Proof.
  intros Hr. cbn. pose proof (sgn_nonneg _ Hr).
  destruct (F64.sgn r); congruence.
Qed.

(** ** [cellbasis] on finite angles *)

Lemma unit_basis_finite (al be ga : R) :
  sin (rad_of ga) <> 0%R ->
  (0 <= radicand al be ga)%R ->
  unit_basis [Fin al; Fin be; Fin ga] = Ok (finM (unit_formula al be ga)).
Proof.
  intros Hs Hr.
  unfold unit_basis. cbn -[F64.div F64.sqrt F64.sgn].
  fold (rad_of al) (rad_of be) (rad_of ga).
  rewrite (div_fin _ _ Hs).
  cbn -[F64.div F64.sqrt F64.sgn].
  fold (skew al be ga). fold (radicand al be ga).
  rewrite (sqrt_fin _ Hr). reflexivity.
Qed.

Lemma cellbasis_finite (al be ga a b c : R) :
  sin (rad_of ga) <> 0%R ->
  (0 <= radicand al be ga)%R ->
  fst (cellbasis [Fin al; Fin be; Fin ga] [Fin a; Fin b; Fin c])
  = Ok (finM (basis_formula al be ga a b c)).
Proof.
  intros Hs Hr. unfold cellbasis.
  rewrite (unit_basis_finite _ _ _ Hs Hr).
  unfold unit_formula, basis_formula. cbn.
  array_ext; cbn; ring.
Qed.

Lemma rad_of_90 : rad_of 90 = (PI / 2)%R.
Proof. unfold rad_of. lra. Qed.

Lemma skew_90 : skew 90 90 90 = 0%R.
Proof. unfold skew. rewrite rad_of_90, cos_PI2, sin_PI2. lra. Qed.

Lemma radicand_90 : radicand 90 90 90 = 1%R.
Proof. unfold radicand. rewrite skew_90, rad_of_90, cos_PI2. lra. Qed.

Lemma cellbasis_orthogonal (a b c : R) :
  fst (cellbasis [Fin 90; Fin 90; Fin 90] [Fin a; Fin b; Fin c])
  = Ok (finM (diag4 a b c 1)).
Proof.
  rewrite cellbasis_finite.
  - unfold basis_formula. rewrite radicand_90, skew_90, rad_of_90, cos_PI2, sin_PI2, sqrt_1.
    cbn. array_ext; cbn; ring.
  - rewrite rad_of_90, sin_PI2. lra.
  - rewrite radicand_90. lra.
Qed.

(** Three angles and three edges: no exception is raised. *)
Lemma cellbasis_returns (al be ga a b c : float64) :
  exists m, fst (cellbasis [al; be; ga] [a; b; c]) = Ok m.
Proof. unfold cellbasis, unit_basis. cbn. eexists. reflexivity. Qed.

(** Special values spread through the later operations. *)





Lemma cellbasis_entries (al be ga : R) (a b c : float64) :
  fst (cellbasis [Fin al; Fin be; Fin ga] [a; b; c])
  = Ok (V4 (V4 (F64.mul (Fin 1) a) (F64.mul (Fin (cos (rad_of ga))) b)
               (F64.mul (Fin (cos (rad_of be))) c) (Fin (0 * 1)))
           (V4 (F64.mul (Fin 0) a) (F64.mul (Fin (sin (rad_of ga))) b)
               (F64.mul (skew64 al be ga) c) (Fin (0 * 1)))
           (V4 (F64.mul (Fin 0) a) (F64.mul (Fin 0) b)
               (F64.mul (height64 al be ga) c) (Fin (0 * 1)))
           (V4 (F64.mul (Fin 0) a) (F64.mul (Fin 0) b)
               (F64.mul (Fin 0) c) (Fin (1 * 1)))).
Proof. reflexivity. Qed.




(** C2, as amended.  [cellbasis] leaves the list of angles as it was and
    appends 1.0 to the list of edges it is given; only when there are fewer
    than three angles, and the call ends in an [IndexError] before the
    append, are the edges left as they were. *)
Theorem cellbasis_store (angles edges : list float64) :
  arg_angles (snd (cellbasis angles edges)) = angles /\
  arg_edges (snd (cellbasis angles edges))
  = if (3 <=? List.length angles)%nat then edges ++ [Fin 1] else edges.
Proof.
  unfold cellbasis.
  destruct angles as [|al [|be [|ga rest]]]; cbn; auto.
Qed.

(** C2, counterexample.  After the call with the edges (10, 10, 10) the list
    of edges is no longer the list that was passed in. *)
Lemma cellbasis_appends_to_edges :
  arg_edges (snd (cellbasis [Fin 90; Fin 90; Fin 90] [Fin 10; Fin 10; Fin 10]))
  <> [Fin 10; Fin 10; Fin 10].
Proof. cbn. discriminate. Qed.

Lemma norm_fin (x y z n : R) :
  (0 <= n)%R -> (x * x + y * y + z * z = n * n)%R ->
  norm (V3 (Fin x) (Fin y) (Fin z)) = Fin n.
Proof.
  intros Hn E. unfold norm, pow2. cbn -[F64.sqrt].
  rewrite sqrt_fin by nra.
  apply Fin_ext. rewrite E. apply sqrt_square, Hn.
Qed.



(** C4.  For a = b = c = 10 and alpha = beta = gamma = 90 degrees
    [cellbasis] returns diag(10, 10, 10, 1). *)
Theorem cellbasis_cubic :
  fst (cellbasis [Fin 90; Fin 90; Fin 90] [Fin 10; Fin 10; Fin 10])
  = Ok (finM (diag4 10 10 10 1)).
Proof. apply cellbasis_orthogonal. Qed.

(** ** The enumeration of the cells *)

Section Enumeration.

Local Open Scope Z_scope.

Lemma in_range (n x : Z) : In x (range n) <-> 0 <= x < n.
Proof.
  unfold range. rewrite in_map_iff. split.
  - intros [m [<- Hm]]. apply in_seq in Hm. lia.
  - intros Hx. exists (Z.to_nat x). split; [lia|]. apply in_seq. lia.
Qed.

Lemma length_range (n : Z) : 0 <= n -> Z.of_nat (List.length (range n)) = n.
Proof. intros Hn. unfold range. rewrite length_map, length_seq. lia. Qed.

Lemma sorted_map_seq (s n : nat) :
  StronglySorted Z.lt (map Z.of_nat (seq s n)).
Proof.
  revert s. induction n as [|n IH]; intros s; cbn; constructor.
  - apply IH.
  - apply Forall_forall. intros x Hx.
    apply in_map_iff in Hx. destruct Hx as [m [<- Hm]].
    apply in_seq in Hm. lia.
Qed.

Lemma sorted_range (n : Z) : StronglySorted Z.lt (range n).
Proof. apply sorted_map_seq. Qed.

(** Blocks in increasing order, each of them sorted, give a sorted list. *)
Lemma sorted_flat_map {A B : Type} (ltA : A -> A -> Prop) (ltB : B -> B -> Prop)
    (f : A -> list B) (l : list A) :
  StronglySorted ltA l ->
  (forall a, In a l -> StronglySorted ltB (f a)) ->
  (forall a a' b b', ltA a a' -> In b (f a) -> In b' (f a') -> ltB b b') ->
  StronglySorted ltB (flat_map f l).
Proof.
  intros Hl Hin Hcross. induction Hl as [|a l Hl IH Ha]; cbn; [constructor|].
  assert (Htail : StronglySorted ltB (flat_map f l)).
  { apply IH. intros a' Ha'. apply Hin. now right. }
  assert (Hblock : StronglySorted ltB (f a)) by (apply Hin; now left).
  assert (Hlt : forall b b', In b (f a) -> In b' (flat_map f l) -> ltB b b').
  { intros b b' Hb Hb'. apply in_flat_map in Hb'. destruct Hb' as [a' [Ha' Hb']].
    rewrite Forall_forall in Ha. eapply Hcross; eauto. }
  clear - Htail Hblock Hlt.
  induction Hblock as [|b bs Hbs IHb Hb]; cbn; [exact Htail|].
  constructor.
  - apply IHb. intros b0 b' H0 H'. apply Hlt; [now right|exact H'].
  - apply Forall_app. split; [exact Hb|].
    apply Forall_forall. intros b' Hb'. apply Hlt; [now left|exact Hb'].
Qed.

Lemma sorted_map {A B : Type} (ltA : A -> A -> Prop) (ltB : B -> B -> Prop)
    (f : A -> B) (l : list A) :
  (forall a a', ltA a a' -> ltB (f a) (f a')) ->
  StronglySorted ltA l -> StronglySorted ltB (map f l).
Proof.
  intros Hf Hl. induction Hl as [|a l Hl IH Ha]; cbn; constructor; [exact IH|].
  apply Forall_map. revert Ha. apply Forall_impl. intros a'. apply Hf.
Qed.

Lemma in_cells (na nb nc i j k : Z) :
  In (i, j, k) (cells na nb nc) <-> 0 <= i < na /\ 0 <= j < nb /\ 0 <= k < nc.
Proof.
  unfold cells. rewrite in_flat_map. split.
  - intros [i' [Hi H]]. apply in_flat_map in H. destruct H as [j' [Hj H]].
    apply in_map_iff in H. destruct H as [k' [E Hk]]. inversion E; subst.
    rewrite in_range in Hi, Hj, Hk. auto.
  - intros [Hi [Hj Hk]]. exists i. split; [now apply in_range|].
    apply in_flat_map. exists j. split; [now apply in_range|].
    apply in_map_iff. exists k. split; [reflexivity|now apply in_range].
Qed.

Lemma sorted_cells (na nb nc : Z) : StronglySorted lex_lt (cells na nb nc).
Proof.
  unfold cells.
  apply sorted_flat_map with (ltA := Z.lt); [apply sorted_range| |].
  - intros i _.
    apply sorted_flat_map with (ltA := Z.lt); [apply sorted_range| |].
    + intros j _. apply sorted_map with (ltA := Z.lt); [|apply sorted_range].
      intros k k' Hk. cbn. lia.
    + intros j j' t t' Hj Ht Ht'.
      apply in_map_iff in Ht. destruct Ht as [k [<- _]].
      apply in_map_iff in Ht'. destruct Ht' as [k' [<- _]]. cbn. lia.
  - intros i i' t t' Hi Ht Ht'.
    apply in_flat_map in Ht. destruct Ht as [j [_ Ht]].
    apply in_map_iff in Ht. destruct Ht as [k [<- _]].
    apply in_flat_map in Ht'. destruct Ht' as [j' [_ Ht']].
    apply in_map_iff in Ht'. destruct Ht' as [k' [<- _]]. cbn. lia.
Qed.

Lemma length_flat_map_const {A B : Type} (f : A -> list B) (l : list A) (n : nat) :
  (forall a, In a l -> List.length (f a) = n) ->
  List.length (flat_map f l) = (List.length l * n)%nat.
Proof.
  induction l as [|a l IH]; intros Hf; cbn; [reflexivity|].
  rewrite length_app, Hf by now left. rewrite IH; [reflexivity|].
  intros a' Ha'. apply Hf. now right.
Qed.

Lemma length_cells (na nb nc : Z) :
  0 <= na -> 0 <= nb -> 0 <= nc ->
  Z.of_nat (List.length (cells na nb nc)) = na * nb * nc.
Proof.
  intros Ha Hb Hc. unfold cells.
  rewrite length_flat_map_const with (n := (List.length (range nb) * List.length (range nc))%nat).
  - rewrite !Nat2Z.inj_mul, !length_range by assumption. ring.
  - intros i _. apply length_flat_map_const. intros j _. apply length_map.
Qed.

End Enumeration.

(** C5.  For repeat counts na, nb, nc that are not negative, the list [ts]
    holds exactly the triples (i, j, k) with 0 <= i < na, 0 <= j < nb and
    0 <= k < nc, each once and in increasing lexicographic order, the a
    index first and the c index last (row-major order); it has na * nb * nc
    entries; and for (2, 1, 1) it is [(0,0,0), (1,0,0)]. *)
Theorem cells_row_major (na nb nc : Z) :
  (0 <= na)%Z -> (0 <= nb)%Z -> (0 <= nc)%Z ->
  (forall i j k : Z,
      In (i, j, k) (cells na nb nc)
      <-> (0 <= i < na /\ 0 <= j < nb /\ 0 <= k < nc)%Z) /\
  StronglySorted lex_lt (cells na nb nc) /\
  Z.of_nat (List.length (cells na nb nc)) = (na * nb * nc)%Z /\
  cells 2 1 1 = [(0, 0, 0); (1, 0, 0)]%Z.
Proof.
  intros Ha Hb Hc. split; [|split; [|split]].
  - intros i j k. apply in_cells.
  - apply sorted_cells.
  - apply length_cells; assumption.
  - reflexivity.
Qed.

(** C5 at the repeat counts (2, 1, 1). *)
Lemma cells_row_major_2_1_1 :
  (forall i j k : Z,
      In (i, j, k) (cells 2 1 1)
      <-> (0 <= i < 2 /\ 0 <= j < 1 /\ 0 <= k < 1)%Z) /\
  StronglySorted lex_lt (cells 2 1 1) /\
  Z.of_nat (List.length (cells 2 1 1)) = (2 * 1 * 1)%Z /\
  cells 2 1 1 = [(0, 0, 0); (1, 0, 0)]%Z.
Proof. apply (cells_row_major 2 1 1); lia. Defined.
(** ** Algebra of 4x4 real matrices *)

Ltac destruct_mat m :=
  let r0 := fresh "r" in let r1 := fresh "r" in let r2 := fresh "r" in let r3 := fresh "r" in
  destruct m as [r0 r1 r2 r3];
  destruct r0 as [? ? ? ?]; destruct r1 as [? ? ? ?];
  destruct r2 as [? ? ? ?]; destruct r3 as [? ? ? ?].

Ltac array_cbv :=
  cbv [finM finV finV3 mmap4 vmap4 vmap3 vzip4 vzip3 mmul mvmul dot4 col4 col3 head3
       get4 get3 set4 getm setm identity4 det4 det3 cofactor minor drop4 adjugate cramer
       isub_col iadd_col adjust_formula homogeneous frac_coords translation diag4
       Nat.even Nat.add y0 y1 y2 y3 x0 x1 x2
       zero one add sub mul div Scalar_R Scalar_float64].

Section RealAlgebra.

Local Open Scope R_scope.

Lemma mmul_assoc (a b c : mat4 R) : mmul (mmul a b) c = mmul a (mmul b c).
Proof. destruct_mat a; destruct_mat b; destruct_mat c. array_cbv. array_ext; ring. Qed.

Lemma mmul_identity_r (a : mat4 R) : mmul a identity4 = a.
Proof. destruct_mat a. array_cbv. array_ext; ring. Qed.

Lemma mmul_identity_l (a : mat4 R) : mmul identity4 a = a.
Proof. destruct_mat a. array_cbv. array_ext; ring. Qed.

Lemma mvmul_identity (v : vec4 R) : mvmul identity4 v = v.
Proof. destruct v. array_cbv. array_ext; ring. Qed.


Lemma mmul_adjugate_l (a : mat4 R) :
  mmul (adjugate a) a = mmap4 (fun x => det4 a * x) identity4.
Proof. destruct_mat a. array_cbv. array_ext; ring. Qed.


Lemma mmul_scale_l (a b : mat4 R) (d : R) :
  mmul (mmap4 (fun x => x / d) a) b = mmap4 (fun x => x / d) (mmul a b).
Proof.
  destruct_mat a; destruct_mat b. array_cbv. unfold Rdiv. array_ext; ring.
Qed.

Lemma scale_cancel (d : R) :
  d <> 0 ->
  mmap4 (fun x => x / d) (mmap4 (fun x => d * x) identity4) = identity4 :> mat4 R.
Proof. intros Hd. array_cbv. array_ext; field; exact Hd. Qed.


Lemma mmul_cramer_l (a : mat4 R) : det4 a <> 0 -> mmul (cramer a) a = identity4.
Proof.
  intros Hd. unfold cramer. rewrite mmul_scale_l, mmul_adjugate_l.
  apply scale_cancel, Hd.
Qed.

(** The inverse of an affine matrix is affine. *)
Lemma cramer_affine (a : mat4 R) : det4 a <> 0 -> affine a -> affine (cramer a).
Proof.
  unfold affine. intros Hd Ha. destruct_mat a. cbn in Ha.
  injection Ha as -> -> -> ->.
  match goal with |- y3 (cramer ?M) = _ => set (m := M) in * end.
  assert (E : cofactor m 3 3 = det4 m) by (subst m; array_cbv; ring).
  unfold cramer, mmap4, vmap4, adjugate. cbn [y0 y1 y2 y3].
  rewrite E. array_ext.
  - subst m. array_cbv. unfold Rdiv. ring.
  - subst m. array_cbv. unfold Rdiv. ring.
  - subst m. array_cbv. unfold Rdiv. ring.
  - cbn [div Scalar_R]. field. exact Hd.
Qed.


Lemma Rfloor_unit (x : R) : 0 <= x < 1 -> Rfloor x = 0.
Proof.
  intros Hx. unfold Rfloor. rewrite <- (Int_part_spec x 0); [reflexivity|lra].
Qed.

End RealAlgebra.

(** ** Arrays of finite numbers stay finite *)

Lemma mmul_fin (a b : mat4 R) : mmul (finM a) (finM b) = finM (mmul a b).
Proof. reflexivity. Qed.

Lemma mvmul_fin (a : mat4 R) (v : vec4 R) : mvmul (finM a) (finV v) = finV (mvmul a v).
Proof. reflexivity. Qed.

Lemma det4_fin (a : mat4 R) : det4 (finM a) = Fin (det4 a).
Proof. reflexivity. Qed.

Lemma adjugate_fin (a : mat4 R) : adjugate (finM a) = finM (adjugate a).
Proof. reflexivity. Qed.

Lemma scale_fin (b : mat4 R) (d : R) :
  d <> 0%R ->
  mmap4 (fun x => F64.div x (Fin d)) (finM b) = finM (mmap4 (fun x => x / d)%R b).
Proof.
  intros Hd. destruct_mat b. cbv [finM mmap4 vmap4 y0 y1 y2 y3].
  rewrite !(fun a => div_fin a d Hd). reflexivity.
Qed.

Lemma cramer_fin (a : mat4 R) : det4 a <> 0%R -> cramer (finM a) = finM (cramer a).
Proof.
  intros Hd. unfold cramer. rewrite det4_fin, adjugate_fin.
  apply (scale_fin _ _ Hd).
Qed.

Lemma inv_fin (a : mat4 R) : det4 a <> 0%R -> inv (finM a) = Ok (finM (cramer a)).
Proof.
  intros Hd. unfold inv. rewrite det4_fin, (cramer_fin _ Hd). cbv beta iota.
  destruct (F64.sgn (det4 a)) eqn:E; try reflexivity.
  exfalso. exact (sgn_neq _ Hd E).
Qed.

Lemma inv_singular (a : mat4 R) : det4 a = 0%R -> inv (finM a) = Raise LinAlgError.
Proof. intros Hd. unfold inv. rewrite det4_fin, Hd, sgn_zero. reflexivity. Qed.

(** [inv] accepts a finite matrix exactly when its determinant is not zero. *)
Lemma inv_fin_inversion (a : mat4 R) (binv : matrix) :
  inv (finM a) = Ok binv -> det4 a <> 0%R /\ binv = finM (cramer a).
Proof.
  intros E. destruct (Req_dec_T (det4 a) 0) as [Hd|Hd].
  - rewrite (inv_singular _ Hd) in E. discriminate.
  - rewrite (inv_fin _ Hd) in E. injection E as <-. auto.
Qed.

Lemma adjust_mat_fin (mat : mat4 R) (cc : vec4 R) (e : vec3 R) :
  adjust_mat (finM mat) (finV cc) (finV3 e) = finM (adjust_formula mat cc e).
Proof. reflexivity. Qed.

Lemma model_mat_fin (basis mat : mat4 R) :
  det4 basis <> 0%R ->
  model_mat (finM basis) (finM mat) = Ok (finM (mmul (mmul basis mat) (cramer basis))).
Proof. intros Hd. unfold model_mat. rewrite (inv_fin _ Hd). reflexivity. Qed.
(** ** The placement loop *)

Lemma place_loop_log (prefix object : string) (basis binv : matrix)
    (cc : vec4 float64) (e : vec3 float64) (matrices : list matrix) :
  inv basis = Ok binv ->
  forall (i : Z) (log : list HostCmd),
    place_loop prefix object basis cc e i matrices log
    = (Ok tt,
       log ++ mate_cmds prefix object i
                (map (fun mat => mmul (mmul basis (adjust_mat mat cc e)) binv) matrices)).
Proof.
  intros Hinv. induction matrices as [|mat rest IH]; intros i log; cbn.
  - unfold hret. now rewrite app_nil_r.
  - unfold hbind, lift, emit, model_mat. rewrite Hinv. cbn.
    rewrite IH. rewrite <- !app_assoc. reflexivity.
Qed.

Lemma place_mates_log (h : Host) (prefix object spacegroup : string)
    (basis binv : matrix) (center : vec4 float64) (a b c : Z)
    (matrices : list matrix) (log : list HostCmd) :
  inv basis = Ok binv ->
  sg_sym_to_mat_list h spacegroup = Ok matrices ->
  place_mates h prefix object basis center a b c spacegroup log
  = (Ok tt,
     log ++ mate_cmds prefix object 0
              (map (fun mat =>
                      mmul (mmul basis
                              (adjust_mat mat (mvmul binv center)
                                 (V3 (F64.of_Z a) (F64.of_Z b) (F64.of_Z c))))
                           binv) matrices)).
Proof.
  intros Hinv Hm. unfold place_mates, hbind, lift. rewrite Hinv, Hm.
  apply place_loop_log, Hinv.
Qed.

(** C7.  For a basis that [np.linalg.inv] accepts, any operator and any
    offset, line 159 returns a matrix, and conjugating it back gives the
    adjusted operator: basis^-1 . M_model . basis = M_adjusted. *)
Theorem model_mat_similarity (basis mat : mat4 R) (center : vec3 R) (a b c : Z)
    (binv : matrix) :
  inv (finM basis) = Ok binv ->
  exists m_model : matrix,
    model_mat (finM basis)
      (adjust_mat (finM mat) (mvmul binv (finV (homogeneous center)))
         (V3 (F64.of_Z a) (F64.of_Z b) (F64.of_Z c)))
    = Ok m_model /\
    mmul (mmul binv m_model) (finM basis)
    = adjust_mat (finM mat) (mvmul binv (finV (homogeneous center)))
        (V3 (F64.of_Z a) (F64.of_Z b) (F64.of_Z c)).
Proof.
  intros Hinv. apply inv_fin_inversion in Hinv. destruct Hinv as [Hd ->].
  change (V3 (F64.of_Z a) (F64.of_Z b) (F64.of_Z c))
    with (finV3 (V3 (IZR a) (IZR b) (IZR c))).
  rewrite mvmul_fin, adjust_mat_fin.
  set (adjusted := adjust_formula _ _ _).
  exists (finM (mmul (mmul basis adjusted) (cramer basis))). split.
  - apply model_mat_fin, Hd.
  - rewrite !mmul_fin. f_equal.
    rewrite <- !mmul_assoc, (mmul_cramer_l _ Hd), mmul_identity_l.
    rewrite mmul_assoc, (mmul_cramer_l _ Hd). apply mmul_identity_r.
Qed.



(** The matrices [cellbasis] returns on finite runs are affine. *)
Lemma basis_formula_affine (al be ga a b c : R) : affine (basis_formula al be ga a b c).
Proof. reflexivity. Qed.

(** C8.  When the symmetry table has no operator for the space group,
    [symexpcell], given an object whose cell has a basis that can be
    inverted, returns normally and changes nothing in the scene. *)
Theorem symexpcell_no_operators (h : Host) (prefix : string) (object : option string)
    (a b c : Z) (o : string) (sym : symmetry)
    (extent : vec3 float64 * vec3 float64) (basis binv : matrix)
    (log : list HostCmd) :
  default_object h object = Ok o ->
  get_symmetry h o = Ok sym ->
  get_extent h o = Ok extent ->
  fst (cellbasis (slice (sym_numbers sym) 3 6) (slice (sym_numbers sym) 0 3)) = Ok basis ->
  inv basis = Ok binv ->
  sg_sym_to_mat_list h (sym_spacegroup sym) = Ok [] ->
  symexpcell h prefix object a b c log = (Ok tt, log).
Proof.
  intros Ho Hsym Hext Hbasis Hinv Hm.
  unfold symexpcell, hbind, lift. rewrite Ho, Hsym, Hbasis, Hext.
  rewrite (place_mates_log h prefix o (sym_spacegroup sym) basis binv _ a b c [] log Hinv Hm).
  cbn. now rewrite app_nil_r.
Qed.

(** Without operators nothing is logged, whether the call returns or raises. *)
Lemma symexpcell_no_operators_log (h : Host) (prefix : string) (object : option string)
    (a b c : Z) (log : list HostCmd) :
  (forall sg, sg_sym_to_mat_list h sg = Ok []) ->
  snd (symexpcell h prefix object a b c log) = log.
Proof.
  intros Hm. unfold symexpcell, place_mates, hbind, lift.
  destruct (default_object h object) as [o|]; [|reflexivity].
  destruct (get_symmetry h o) as [sym|]; [|reflexivity].
  destruct (fst (cellbasis _ _)) as [basis|]; [|reflexivity].
  destruct (get_extent h o) as [extent|]; [|reflexivity].
  destruct (inv basis) as [binv|]; [|reflexivity].
  rewrite Hm. reflexivity.
Qed.
(** ** The scenario: a 2x1x1 supercell of a 10 x 20 x 30 cell in P1 *)

Section P1Scenario.

Local Open Scope R_scope.

Lemma adjust_identity (cc : vec4 R) (e : vec3 R) :
  y3 cc = 1 ->
  adjust_formula identity4 cc e
  = translation (V3 (x0 e - Rfloor (y0 cc)) (x1 e - Rfloor (y1 cc)) (x2 e - Rfloor (y2 cc))).
Proof.
  intros H. unfold adjust_formula. rewrite mvmul_identity.
  destruct cc, e. array_cbv. array_ext; ring.
Qed.

Lemma det4_diag (a b c : R) : det4 (diag4 a b c 1) = a * b * c.
Proof. array_cbv. ring. Qed.

Lemma frac_coords_diag (a b c : R) (p : vec3 R) :
  a <> 0 -> b <> 0 -> c <> 0 ->
  frac_coords (diag4 a b c 1) p = V4 (x0 p / a) (x1 p / b) (x2 p / c) 1.
Proof. intros Ha Hb Hc. destruct p. array_cbv. array_ext; field; auto. Qed.

Lemma conjugate_translation (a b c : R) (v : vec3 R) :
  a <> 0 -> b <> 0 -> c <> 0 ->
  mmul (mmul (diag4 a b c 1) (translation v)) (cramer (diag4 a b c 1))
  = translation (V3 (a * x0 v) (b * x1 v) (c * x2 v)).
Proof. intros Ha Hb Hc. destruct v. array_cbv. array_ext; field; auto. Qed.

End P1Scenario.

Lemma extent_center_fin (lo hi : vec3 R) :
  extent_center (finV3 lo, finV3 hi) = finV (homogeneous (extent_mid lo hi)).
Proof. reflexivity. Qed.

Lemma det4_p1 : det4 (diag4 10 20 30 1) <> 0%R.
Proof. rewrite det4_diag. lra. Qed.

(** One call of [symexpcell] in the scenario. *)
Lemma symexpcell_p1 (h : Host) (o : string) (lo hi : vec3 R) (t : Z * Z * Z)
    (log : list HostCmd) :
  get_symmetry h o = Ok p1_symmetry ->
  get_extent h o = Ok (finV3 lo, finV3 hi) ->
  sg_sym_to_mat_list h "P1" = Ok [identity4] ->
  symexpcell h (mate_prefix t) (Some o) (fst (fst t)) (snd (fst t)) (snd t) log
  = (Ok tt, log ++ p1_mate o (extent_mid lo hi) t).
Proof.
  intros Hsym Hext Hm. destruct t as [[t0 t1] t2]. cbn [fst snd].
  unfold symexpcell, hbind, lift. cbn [default_object]. rewrite Hsym, Hext.
  change (slice (sym_numbers p1_symmetry) 3 6) with [Fin 90; Fin 90; Fin 90].
  change (slice (sym_numbers p1_symmetry) 0 3) with [Fin 10; Fin 20; Fin 30].
  rewrite cellbasis_orthogonal, extent_center_fin.
  rewrite (place_mates_log h _ o "P1" _ _ _ t0 t1 t2 [identity4] log
             (inv_fin _ det4_p1) Hm).
  unfold p1_mate. do 2 f_equal. cbn [map]. f_equal.
  change (identity4 : matrix) with (finM identity4).
  change (V3 (F64.of_Z t0) (F64.of_Z t1) (F64.of_Z t2))
    with (finV3 (V3 (IZR t0) (IZR t1) (IZR t2))).
  rewrite mvmul_fin, adjust_mat_fin, !mmul_fin. f_equal.
  fold (frac_coords (diag4 10 20 30 1) (extent_mid lo hi)).
  rewrite frac_coords_diag by lra.
  rewrite adjust_identity by reflexivity.
  rewrite conjugate_translation by lra.
  reflexivity.
Qed.
(** The loop over the three axes of one cell: the wireframe grows by the
    twelve edges of the cell, and [symexpcell] runs once per axis. *)
Lemma axis_loop_run (h : Host) (o : string) (withmates : Z) (basis : matrix)
    (t : Z * Z * Z) (cmds : list HostCmd) (obj : list cgo) (log : list HostCmd) :
  withmates <> 0%Z ->
  (forall log', symexpcell h (mate_prefix t) (Some o) (fst (fst t)) (snd (fst t)) (snd t) log'
                = (Ok tt, log' ++ cmds)) ->
  for_each [0; 1; 2]%nat (axis_step h o withmates basis t) obj log
  = (Ok (obj ++ cell_wireframe basis t), log ++ cmds ++ cmds ++ cmds).
Proof.
  intros Hw Hsym. destruct t as [[t0 t1] t2]. cbn [fst snd] in Hsym.
  apply Z.eqb_neq in Hw.
  unfold for_each, axis_step, hbind, hret. rewrite Hw, !Hsym.
  unfold cell_wireframe. cbn [flat_map]. rewrite app_nil_r, <- !app_assoc.
  reflexivity.
Qed.

Lemma for_each_cons {S A : Type} (a : A) (l : list A) (body : A -> S -> host S) (s : S) :
  for_each (a :: l) body s = hbind (body a s) (for_each l body).
Proof. reflexivity. Qed.

Lemma for_each_nil {S A : Type} (body : A -> S -> host S) (s : S) :
  for_each [] body s = hret s.
Proof. reflexivity. Qed.

Lemma supercell_p1_run (h : Host) (object : option string) (o color name : string)
    (lo hi : vec3 R) (rgb : list float64) (log : list HostCmd) :
  default_object h object = Ok o ->
  get_symmetry h o = Ok p1_symmetry ->
  get_extent h o = Ok (finV3 lo, finV3 hi) ->
  sg_sym_to_mat_list h "P1" = Ok [identity4] ->
  get_color_tuple h color = Ok rgb ->
  let basis := finM (diag4 10 20 30 1) in
  let mate := p1_mate o (extent_mid lo hi) in
  supercell h 2 1 1 object color name 1 log
  = (Ok tt,
     log ++ (mate (0, 0, 0) ++ mate (0, 0, 0) ++ mate (0, 0, 0))%Z
         ++ (mate (1, 0, 0) ++ mate (1, 0, 0) ++ mate (1, 0, 0))%Z
         ++ [ Delete name;
              LoadCgo ([BEGIN; LINES; COLOR] ++ map Num rgb
                         ++ cell_wireframe basis (0, 0, 0)%Z
                         ++ cell_wireframe basis (1, 0, 0)%Z ++ [END]) name ]).
Proof.
  intros Ho Hsym Hext Hm Hrgb basis mate.
  unfold supercell, hbind, lift. rewrite Ho, Hsym.
  change (slice (sym_numbers p1_symmetry) 3 6) with [Fin 90; Fin 90; Fin 90].
  change (slice (sym_numbers p1_symmetry) 0 3) with [Fin 10; Fin 20; Fin 30].
  rewrite cellbasis_orthogonal, Hrgb. fold basis.
  change (cells 2 1 1) with [(0, 0, 0); (1, 0, 0)]%Z.
  rewrite (for_each_cons (A := Z * Z * Z)). unfold hbind at 1.
  rewrite (axis_loop_run h o 1 basis (0, 0, 0)%Z (mate (0, 0, 0)%Z)) by
    (try discriminate; intros; apply (symexpcell_p1 h o lo hi (0, 0, 0)%Z); assumption).
  cbv beta iota.
  rewrite (for_each_cons (A := Z * Z * Z)). unfold hbind at 1.
  rewrite (axis_loop_run h o 1 basis (1, 0, 0)%Z (mate (1, 0, 0)%Z)) by
    (try discriminate; intros; apply (symexpcell_p1 h o lo hi (1, 0, 0)%Z); assumption).
  cbv beta iota. rewrite (for_each_nil (A := Z * Z * Z)).
  unfold hret, hbind.
  unfold emit. rewrite <- !app_assoc. reflexivity.
Qed.

(** Twelve segments for every cell, whatever the basis. *)
Lemma endpoints_cell_wireframe (basis : matrix) (t : Z * Z * Z) :
  endpoints (cell_wireframe basis t) = 24%nat.
Proof. reflexivity. Qed.
Lemma p1_mate_cmds (o : string) (p : vec3 R) :
  p1_mate o p (0, 0, 0)%Z
  = [ Create "m000_1" o;
      TransformObject "m000_1" (flat (finM (translation (p1_offset p (0, 0, 0)%Z)))) 0;
      Color 2 "m000_1" ] /\
  p1_mate o p (1, 0, 0)%Z
  = [ Create "m100_1" o;
      TransformObject "m100_1" (flat (finM (translation (p1_offset p (1, 0, 0)%Z)))) 0;
      Color 2 "m100_1" ].
Proof. split; reflexivity. Qed.

Lemma p1_offset_origin_cell (p : vec3 R) (t : Z * Z * Z) :
  (0 <= x0 p < 10)%R -> (0 <= x1 p < 20)%R -> (0 <= x2 p < 30)%R ->
  p1_offset p t
  = V3 (10 * IZR (fst (fst t)))%R (20 * IZR (snd (fst t)))%R (30 * IZR (snd t))%R.
Proof.
  intros H0 H1 H2. destruct t as [[t0 t1] t2]. unfold p1_offset. cbn [fst snd].
  rewrite !Rfloor_unit by lra. array_ext; ring.
Qed.

Ltac in_log H :=
  repeat (rewrite in_app_iff in H); cbn [In] in H;
  repeat match type of H with _ \/ _ => destruct H as [H|H] end;
  try discriminate H; try contradiction H.

(** C9, as amended.  For the edges (10, 20, 30), the angles (90, 90, 90),
    the repeat counts (2, 1, 1) and the space group P1 with the identity as
    its only operator, [supercell] enumerates the two cells (0,0,0) and
    (1,0,0) and returns normally.  Every copy it creates for the cell
    (i,0,0) is a copy of the object named m<i>00_1, and the transform it is
    given is the pure translation by
    (10 (i - floor(x/10)), -20 floor(y/20), -30 floor(z/30)), where
    (x, y, z) is the centre of the object's extent: the Cartesian offset of
    the cell, (0,0,0) and (10,0,0), when that centre lies in the origin
    cell.  The wireframe of each cell has 24 segment endpoints. *)
Theorem supercell_p1_scenario (h : Host) (object : option string) (o color name : string)
    (lo hi : vec3 R) (rgb : list float64) :
  default_object h object = Ok o ->
  get_symmetry h o = Ok p1_symmetry ->
  get_extent h o = Ok (finV3 lo, finV3 hi) ->
  sg_sym_to_mat_list h "P1" = Ok [identity4] ->
  get_color_tuple h color = Ok rgb ->
  exists (log : list HostCmd) (wire0 wire1 : list cgo),
    cells 2 1 1 = [(0, 0, 0); (1, 0, 0)]%Z /\
    supercell h 2 1 1 object color name 1 []
    = (Ok tt,
       log ++ [ Delete name;
                LoadCgo ([BEGIN; LINES; COLOR] ++ map Num rgb ++ wire0 ++ wire1 ++ [END])
                        name ]) /\
    wire0 = cell_wireframe (finM (diag4 10 20 30 1)) (0, 0, 0)%Z /\
    wire1 = cell_wireframe (finM (diag4 10 20 30 1)) (1, 0, 0)%Z /\
    endpoints wire0 = 24%nat /\
    endpoints wire1 = 24%nat /\
    (forall n s, In (Create n s) log ->
       s = o /\ (n = "m000_1"%string \/ n = "m100_1"%string)) /\
    (forall n m s, In (TransformObject n m s) log ->
       (n = "m000_1"%string /\
        m = flat (finM (translation (p1_offset (extent_mid lo hi) (0, 0, 0)%Z)))) \/
       (n = "m100_1"%string /\
        m = flat (finM (translation (p1_offset (extent_mid lo hi) (1, 0, 0)%Z))))) /\
    In (TransformObject "m000_1"
          (flat (finM (translation (p1_offset (extent_mid lo hi) (0, 0, 0)%Z)))) 0) log /\
    In (TransformObject "m100_1"
          (flat (finM (translation (p1_offset (extent_mid lo hi) (1, 0, 0)%Z)))) 0) log /\
    ((0 <= x0 (extent_mid lo hi) < 10)%R ->
     (0 <= x1 (extent_mid lo hi) < 20)%R ->
     (0 <= x2 (extent_mid lo hi) < 30)%R ->
     p1_offset (extent_mid lo hi) (0, 0, 0)%Z = V3 0 0 0 /\
     p1_offset (extent_mid lo hi) (1, 0, 0)%Z = V3 10 0 0)%R.
Proof.
  intros Ho Hsym Hext Hm Hrgb.
  pose proof (supercell_p1_run h object o color name lo hi rgb [] Ho Hsym Hext Hm Hrgb) as Hrun.
  cbv zeta in Hrun. cbn [app] in Hrun.
  destruct (p1_mate_cmds o (extent_mid lo hi)) as [E0 E1].
  set (p := extent_mid lo hi) in *.
  set (m0 := p1_mate o p (0, 0, 0)%Z) in *.
  set (m1 := p1_mate o p (1, 0, 0)%Z) in *.
  exists ((m0 ++ m0 ++ m0) ++ (m1 ++ m1 ++ m1)), 
    (cell_wireframe (finM (diag4 10 20 30 1)) (0, 0, 0)%Z),
    (cell_wireframe (finM (diag4 10 20 30 1)) (1, 0, 0)%Z).
  split; [reflexivity|]. split.
  { rewrite Hrun, <- !app_assoc. reflexivity. }
  split; [reflexivity|]. split; [reflexivity|].
  split; [apply endpoints_cell_wireframe|]. split; [apply endpoints_cell_wireframe|].
  rewrite E0, E1. split; [|split; [|split; [|split]]].
  - intros n s H. in_log H; injection H as <- <-; auto.
  - intros n m s H. in_log H; injection H as <- <- <-;
      first [left; split; reflexivity | right; split; reflexivity].
  - apply in_or_app. left. apply in_or_app. left. right. left. reflexivity.
  - apply in_or_app. right. apply in_or_app. left. right. left. reflexivity.
  - intros H0 H1 H2. rewrite !p1_offset_origin_cell by assumption.
    cbn [fst snd]. split; array_ext; lra.
Qed.
Lemma Rfloor_eq (x : R) (z : Z) : (IZR z <= x < IZR z + 1)%R -> Rfloor x = IZR z.
Proof.
  intros Hx. unfold Rfloor. rewrite <- (Int_part_spec x z); [reflexivity|lra].
Qed.

(** C9, counterexample.  For an object whose extent has its centre at
    (15, 5, 5), in the next cell along a, the copy made for the first cell
    is moved by (-10, 0, 0), not by the offset (0, 0, 0) of that cell. *)
Lemma supercell_p1_far_object :
  exists (log : list HostCmd),
    supercell (p1_host (V3 10 0 0)%R (V3 20 10 10)%R) 2 1 1 None "blue" "supercell" 1 []
    = (Ok tt, log) /\
    In (TransformObject "m000_1" (flat (finM (translation (V3 (-10) 0 0)%R))) 0) log /\
    flat (finM (translation (V3 (-10) 0 0)%R)) <> flat (finM (translation (V3 0 0 0)%R)).
Proof.
  eexists. split; [|split].
  - apply (supercell_p1_run (p1_host (V3 10 0 0)%R (V3 20 10 10)%R) None "obj" "blue" "supercell"
             (V3 10 0 0)%R (V3 20 10 10)%R [Fin 0; Fin 0; Fin 1] []); reflexivity.
  - cbn [app].
    destruct (p1_mate_cmds "obj" (extent_mid (V3 10 0 0)%R (V3 20 10 10)%R)) as [E0 _].
    rewrite E0.
    assert (E : p1_offset (extent_mid (V3 10 0 0)%R (V3 20 10 10)%R) (0, 0, 0)%Z
                = (V3 (-10) 0 0)%R).
    { unfold p1_offset, extent_mid. cbn [vmap3 vzip3 x0 x1 x2].
      rewrite (Rfloor_eq _ 1), (Rfloor_eq _ 0), (Rfloor_eq _ 0) by lra.
      array_ext; lra. }
    rewrite E. right. left. reflexivity.
  - intros H. injection H as H. lra.
Qed.
(** ** The theorems at concrete inputs *)



(** C7 at the scenario's basis, for the centre (15, 5, 5) and the offset
    (1, 0, 0). *)
Lemma model_mat_similarity_p1 :
  exists m_model : matrix,
    model_mat (finM (diag4 10 20 30 1))
      (adjust_mat (finM identity4)
         (mvmul (finM (cramer (diag4 10 20 30 1))) (finV (homogeneous (V3 15 5 5)%R)))
         (V3 (F64.of_Z 1) (F64.of_Z 0) (F64.of_Z 0)))
    = Ok m_model /\
    mmul (mmul (finM (cramer (diag4 10 20 30 1))) m_model) (finM (diag4 10 20 30 1))
    = adjust_mat (finM identity4)
        (mvmul (finM (cramer (diag4 10 20 30 1))) (finV (homogeneous (V3 15 5 5)%R)))
        (V3 (F64.of_Z 1) (F64.of_Z 0) (F64.of_Z 0)).
Proof.
  apply (model_mat_similarity (diag4 10 20 30 1) identity4 (V3 15 5 5)%R 1 0 0
           (finM (cramer (diag4 10 20 30 1)))).
  apply inv_fin, det4_p1.
Defined.


(** C8 in a host whose symmetry table is empty. *)
Lemma symexpcell_no_operators_bare :
  symexpcell (bare_host (V3 0 0 0)%R (V3 10 10 10)%R) "mate" None 0 0 0 []
  = (Ok tt, []).
Proof.
  apply (symexpcell_no_operators (bare_host (V3 0 0 0)%R (V3 10 10 10)%R) "mate" None 0 0 0
           "obj" p1_symmetry (finV3 (V3 0 0 0)%R, finV3 (V3 10 10 10)%R)
           (finM (diag4 10 20 30 1)) (finM (cramer (diag4 10 20 30 1))) []).
  - reflexivity.
  - reflexivity.
  - reflexivity.
  - apply cellbasis_orthogonal.
  - apply inv_fin, det4_p1.
  - reflexivity.
Defined.

(** C9 for an object whose extent is the box from (0,0,0) to (10,10,10). *)
Lemma supercell_p1_scenario_centered :
  exists (log : list HostCmd) (wire0 wire1 : list cgo),
    cells 2 1 1 = [(0, 0, 0); (1, 0, 0)]%Z /\
    supercell (p1_host (V3 0 0 0)%R (V3 10 10 10)%R) 2 1 1 None "blue" "supercell" 1 []
    = (Ok tt,
       log ++ [ Delete "supercell";
                LoadCgo ([BEGIN; LINES; COLOR] ++ map Num [Fin 0; Fin 0; Fin 1]
                           ++ wire0 ++ wire1 ++ [END])
                        "supercell" ]) /\
    wire0 = cell_wireframe (finM (diag4 10 20 30 1)) (0, 0, 0)%Z /\
    wire1 = cell_wireframe (finM (diag4 10 20 30 1)) (1, 0, 0)%Z /\
    endpoints wire0 = 24%nat /\
    endpoints wire1 = 24%nat /\
    (forall n s, In (Create n s) log ->
       s = "obj"%string /\ (n = "m000_1"%string \/ n = "m100_1"%string)) /\
    (forall n m s, In (TransformObject n m s) log ->
       (n = "m000_1"%string /\
        m = flat (finM (translation
                          (p1_offset (extent_mid (V3 0 0 0)%R (V3 10 10 10)%R) (0, 0, 0)%Z)))) \/
       (n = "m100_1"%string /\
        m = flat (finM (translation
                          (p1_offset (extent_mid (V3 0 0 0)%R (V3 10 10 10)%R) (1, 0, 0)%Z))))) /\
    In (TransformObject "m000_1"
          (flat (finM (translation
                         (p1_offset (extent_mid (V3 0 0 0)%R (V3 10 10 10)%R) (0, 0, 0)%Z)))) 0)
       log /\
    In (TransformObject "m100_1"
          (flat (finM (translation
                         (p1_offset (extent_mid (V3 0 0 0)%R (V3 10 10 10)%R) (1, 0, 0)%Z)))) 0)
       log /\
    ((0 <= x0 (extent_mid (V3 0 0 0) (V3 10 10 10)) < 10)%R ->
     (0 <= x1 (extent_mid (V3 0 0 0) (V3 10 10 10)) < 20)%R ->
     (0 <= x2 (extent_mid (V3 0 0 0) (V3 10 10 10)) < 30)%R ->
     p1_offset (extent_mid (V3 0 0 0) (V3 10 10 10)) (0, 0, 0)%Z = V3 0 0 0 /\
     p1_offset (extent_mid (V3 0 0 0) (V3 10 10 10)) (1, 0, 0)%Z = V3 10 0 0)%R.
Proof.
  apply (supercell_p1_scenario (p1_host (V3 0 0 0)%R (V3 10 10 10)%R) None "obj" "blue"
           "supercell" (V3 0 0 0)%R (V3 10 10 10)%R [Fin 0; Fin 0; Fin 1]); reflexivity.
Defined.

(** * Further properties of the code

    ** [cellbasis] *)

Lemma unit_basis_three (al be ga : float64) (rest : list float64) :
  exists m, unit_basis (al :: be :: ga :: rest) = Ok m.
Proof. unfold unit_basis. cbn. eexists. reflexivity. Qed.

(** X1.  The outcome of [cellbasis] by the lengths of its two lists: with
    fewer than three angles it raises [IndexError]; with three or more it
    returns a matrix when the edges list has three entries or none, and
    raises [ValueError] for every other number of edges. *)
Theorem cellbasis_outcome (angles edges : list float64) :
  match fst (cellbasis angles edges) with
  | Ok _ =>
      (3 <= List.length angles)%nat /\
      (List.length edges = 3%nat \/ List.length edges = 0%nat)
  | Raise e =>
      ((List.length angles < 3)%nat /\ e = IndexError) \/
      ((3 <= List.length angles)%nat /\ List.length edges <> 3%nat /\
       List.length edges <> 0%nat /\ e = ValueError)
  end.
Proof.
  destruct angles as [|al [|be [|ga rest]]];
    try (cbn; left; split; [lia|reflexivity]).
  unfold cellbasis.
  destruct (unit_basis_three al be ga rest) as [m ->]. cbn [fst].
  destruct edges as [|e0 [|e1 [|e2 [|e3 more]]]]; cbn.
  - split; [lia|right; reflexivity].
  - right. split; [lia|]. split; [lia|]. split; [lia|reflexivity].
  - right. split; [lia|]. split; [lia|]. split; [lia|reflexivity].
  - split; [lia|left; reflexivity].
  - destruct more; cbn; right; (split; [lia|]); (split; [lia|]); (split; [lia|reflexivity]).
Qed.

(** X2.  [cellbasis] cannot be given the same edges list twice: after a
    call with three angles and three edges, a second call with the list the
    first one left behind raises [ValueError]. *)
Theorem cellbasis_second_call (angles edges : list float64) :
  (3 <= List.length angles)%nat ->
  List.length edges = 3%nat ->
  fst (cellbasis angles (arg_edges (snd (cellbasis angles edges)))) = Raise ValueError.
Proof.
  intros Ha He.
  destruct angles as [|al [|be [|ga rest]]]; cbn in Ha; try lia.
  destruct edges as [|e0 [|e1 [|e2 [|e3 more]]]]; cbn in He; try lia.
  unfold cellbasis.
  destruct (unit_basis_three al be ga rest) as [m ->]. reflexivity.
Qed.

Lemma cellbasis_second_call_cubic :
  fst (cellbasis [Fin 90; Fin 90; Fin 90]
         (arg_edges (snd (cellbasis [Fin 90; Fin 90; Fin 90] [Fin 10; Fin 10; Fin 10]))))
  = Raise ValueError.
Proof.
  apply (cellbasis_second_call [Fin 90; Fin 90; Fin 90] [Fin 10; Fin 10; Fin 10]).
  - cbn. lia.
  - reflexivity.
Defined.

(** X3.  For finite angles and finite edges the matrix [cellbasis] returns
    is upper triangular with the homogeneous last row and column, and its
    first column is (a, 0, 0, 0): the a axis lies along x and the b axis in
    the x-y plane, whatever the angles are. *)
Theorem cellbasis_shape (al be ga a b c : R) :
  exists m,
    fst (cellbasis [Fin al; Fin be; Fin ga] [Fin a; Fin b; Fin c]) = Ok m /\
    col4 m 0 = V4 (Fin a) (Fin 0) (Fin 0) (Fin 0) /\
    getm m 2 1 = Fin 0 /\
    y3 m = V4 (Fin 0) (Fin 0) (Fin 0) (Fin 1) /\
    col4 m 3 = V4 (Fin 0) (Fin 0) (Fin 0) (Fin 1).
Proof.
  eexists. split; [apply cellbasis_entries|].
  cbv [col4 getm get4 vmap4 y0 y1 y2 y3]. cbn [F64.mul].
  repeat split; array_ext; ring.
Qed.






(** ** The enumeration of the cells, continued *)

Lemma range_nil (n : Z) : range n = [] <-> (n <= 0)%Z.
Proof.
  unfold range. split.
  - intros E. destruct (Z.to_nat n) eqn:En; [lia|discriminate].
  - intros Hn. replace (Z.to_nat n) with 0%nat by lia. reflexivity.
Qed.

Lemma flat_map_nil {A B : Type} (f : A -> list B) (l : list A) :
  flat_map f l = [] <-> forall a, In a l -> f a = [].
Proof.
  induction l as [|a l IH]; cbn.
  - split; [intros _ a []|reflexivity].
  - split.
    + intros E. apply app_eq_nil in E. destruct E as [Ea El].
      intros a' [<-|Ha']; [exact Ea|]. now apply IH.
    + intros H. rewrite (H a) by now left. cbn. apply IH.
      intros a' Ha'. apply H. now right.
Qed.

(** X6.  The list of cells is empty exactly when one of the repeat counts
    is zero or negative. *)
Theorem cells_empty (na nb nc : Z) :
  cells na nb nc = [] <-> (na <= 0 \/ nb <= 0 \/ nc <= 0)%Z.
Proof.
  unfold cells. rewrite flat_map_nil. split.
  - intros H.
    destruct (Z_le_gt_dec na 0) as [Ha|Ha]; [now left|].
    destruct (Z_le_gt_dec nb 0) as [Hb|Hb]; [now right; left|].
    right. right.
    assert (E : flat_map (fun j => map (fun k => (0, j, k)%Z) (range nc)) (range nb) = []).
    { apply (H 0%Z). apply in_range. lia. }
    rewrite flat_map_nil in E. specialize (E 0%Z).
    apply range_nil. apply map_eq_nil with (f := fun k => (0, 0, k)%Z).
    apply E. apply in_range. lia.
  - intros [Ha|[Hb|Hc]] i Hi.
    + apply in_range in Hi. lia.
    + apply range_nil in Hb. rewrite Hb. reflexivity.
    + apply range_nil in Hc. rewrite Hc. cbn.
      apply flat_map_nil. reflexivity.
Qed.

Lemma nth_error_range (n x : Z) :
  (0 <= x < n)%Z -> nth_error (range n) (Z.to_nat x) = Some x.
Proof.
  intros Hx. unfold range. rewrite nth_error_map, nth_error_seq.
  replace (Z.to_nat x <? Z.to_nat n)%nat with true by (symmetry; apply Nat.ltb_lt; lia).
  cbn. f_equal. lia.
Qed.

Lemma nth_error_flat_map_const {A B : Type} (f : A -> list B) (m : nat) (l : list A) :
  (forall a, List.length (f a) = m) ->
  forall (p q : nat) (a : A) (b : B),
    nth_error l p = Some a -> nth_error (f a) q = Some b ->
    nth_error (flat_map f l) (p * m + q) = Some b.
Proof.
  intros Hlen. induction l as [|a0 l IH]; intros p q a b Hp Hq.
  - destruct p; discriminate.
  - destruct p as [|p]; cbn in Hp |- *.
    + injection Hp as ->. rewrite nth_error_app1; [exact Hq|].
      apply nth_error_Some. congruence.
    + rewrite nth_error_app2 by (rewrite Hlen; lia).
      rewrite Hlen. replace (m + p * m + q - m)%nat with (p * m + q)%nat by lia.
      eapply IH; eassumption.
Qed.

(** X7.  The position of a cell in the list: the cell (i, j, k) is the
    entry number i nb nc + j nc + k, counting from zero. *)
Theorem cells_position (na nb nc i j k : Z) :
  (0 <= i < na)%Z -> (0 <= j < nb)%Z -> (0 <= k < nc)%Z ->
  nth_error (cells na nb nc) (Z.to_nat (i * nb * nc + j * nc + k)) = Some (i, j, k).
Proof.
  intros Hi Hj Hk. unfold cells.
  replace (Z.to_nat (i * nb * nc + j * nc + k))
    with (Z.to_nat i * (Z.to_nat nb * Z.to_nat nc) + (Z.to_nat j * Z.to_nat nc + Z.to_nat k))%nat
    by nia.
  apply nth_error_flat_map_const with (a := i).
  - intros i'. rewrite length_flat_map_const with (n := Z.to_nat nc).
    + unfold range. now rewrite length_map, length_seq.
    + intros j' _. unfold range. now rewrite !length_map, length_seq.
  - now apply nth_error_range.
  - apply nth_error_flat_map_const with (a := j).
    + intros j'. unfold range. now rewrite !length_map, length_seq.
    + now apply nth_error_range.
    + rewrite nth_error_map, nth_error_range by assumption. reflexivity.
Qed.

Lemma cells_position_2_2_3 :
  nth_error (cells 2 2 3) (Z.to_nat (1 * 2 * 3 + 0 * 3 + 2)) = Some (1, 0, 2)%Z.
Proof. apply (cells_position 2 2 3 1 0 2); lia. Defined.

(** ** [symexpcell], continued *)

Lemma place_mates_outcome (h : Host) (prefix object spacegroup : string)
    (basis : matrix) (center : vec4 float64) (a b c : Z) (log : list HostCmd) :
  (exists log', place_mates h prefix object basis center a b c spacegroup log = (Ok tt, log'))
  \/ (exists e, place_mates h prefix object basis center a b c spacegroup log = (Raise e, log)).
Proof.
  destruct (inv basis) as [binv|e] eqn:Hinv.
  - destruct (sg_sym_to_mat_list h spacegroup) as [matrices|e] eqn:Hm.
    + left. eexists. apply (place_mates_log _ _ _ _ _ _ _ _ _ _ _ _ Hinv Hm).
    + right. exists e. unfold place_mates, hbind, lift. rewrite Hinv, Hm. reflexivity.
  - right. exists e. unfold place_mates, hbind, lift. rewrite Hinv. reflexivity.
Qed.

(** X8.  [symexpcell] changes the scene completely or not at all: either
    it returns normally, or it raises and has logged nothing. *)
Theorem symexpcell_all_or_nothing (h : Host) (prefix : string) (object : option string)
    (a b c : Z) (log : list HostCmd) :
  (exists log', symexpcell h prefix object a b c log = (Ok tt, log'))
  \/ (exists e, symexpcell h prefix object a b c log = (Raise e, log)).
Proof.
  unfold symexpcell, hbind, lift.
  destruct (default_object h object) as [o|e]; [|right; now exists e].
  destruct (get_symmetry h o) as [sym|e]; [|right; now exists e].
  destruct (fst (cellbasis _ _)) as [basis|e]; [|right; now exists e].
  destruct (get_extent h o) as [extent|e]; [|right; now exists e].
  apply place_mates_outcome.
Qed.

Lemma mate_cmds_length (prefix object : string) (transforms : list matrix) (i : Z) :
  List.length (mate_cmds prefix object i transforms) = (3 * List.length transforms)%nat.
Proof.
  revert i. induction transforms as [|m rest IH]; intros i; cbn; [reflexivity|].
  rewrite IH. lia.
Qed.

Lemma mate_cmds_nth (prefix object : string) (transforms : list matrix) :
  forall (i : Z) (k : nat) (m : matrix),
    nth_error transforms k = Some m ->
    let name := (prefix ++ dec (i + Z.of_nat k + 1))%string in
    nth_error (mate_cmds prefix object i transforms) (3 * k) = Some (Create name object) /\
    nth_error (mate_cmds prefix object i transforms) (3 * k + 1)
    = Some (TransformObject name (flat m) 0) /\
    nth_error (mate_cmds prefix object i transforms) (3 * k + 2)
    = Some (Color (i + Z.of_nat k + 2) name).
Proof.
  induction transforms as [|m0 rest IH]; intros i k m Hk; [destruct k; discriminate|].
  destruct k as [|k].
  - cbn in Hk. injection Hk as ->. cbn.
    replace (i + 0 + 1)%Z with (i + 1)%Z by lia.
    replace (i + 0 + 2)%Z with (i + 1 + 1)%Z by lia. auto.
  - cbn in Hk. specialize (IH (i + 1)%Z k m Hk). cbv zeta in IH.
    replace (i + 1 + Z.of_nat k + 1)%Z with (i + Z.of_nat (S k) + 1)%Z in IH by lia.
    replace (i + 1 + Z.of_nat k + 2)%Z with (i + Z.of_nat (S k) + 2)%Z in IH by lia.
    replace (3 * S k)%nat with (S (S (S (3 * k)))) by lia.
    cbn [mate_cmds Nat.add nth_error]. exact IH.
Qed.

(** X9.  On a successful run over n operators [symexpcell] logs 3 n
    commands: for the operator number k + 1 (k counted from zero) it
    creates the copy named prefix followed by k + 1, transforms it by the
    model-space matrix of that operator, and colours it with the index
    k + 2, in the order of the symmetry table. *)
Theorem symexpcell_numbering (h : Host) (prefix : string) (object : option string)
    (a b c : Z) (o : string) (sym : symmetry)
    (extent : vec3 float64 * vec3 float64) (basis binv : matrix)
    (matrices : list matrix) (log : list HostCmd) :
  default_object h object = Ok o ->
  get_symmetry h o = Ok sym ->
  get_extent h o = Ok extent ->
  fst (cellbasis (slice (sym_numbers sym) 3 6) (slice (sym_numbers sym) 0 3)) = Ok basis ->
  inv basis = Ok binv ->
  sg_sym_to_mat_list h (sym_spacegroup sym) = Ok matrices ->
  exists cmds : list HostCmd,
    symexpcell h prefix object a b c log = (Ok tt, log ++ cmds) /\
    List.length cmds = (3 * List.length matrices)%nat /\
    forall (k : nat) (mat : matrix),
      nth_error matrices k = Some mat ->
      let name := (prefix ++ dec (Z.of_nat k + 1))%string in
      nth_error cmds (3 * k) = Some (Create name o) /\
      nth_error cmds (3 * k + 1)
      = Some (TransformObject name
                (flat (mate_transform basis binv (mvmul binv (extent_center extent))
                         (a, b, c) mat)) 0) /\
      nth_error cmds (3 * k + 2) = Some (Color (Z.of_nat k + 2) name).
Proof.
  intros Ho Hsym Hext Hbasis Hinv Hm.
  eexists. split; [|split].
  - unfold symexpcell, hbind, lift. rewrite Ho, Hsym, Hbasis, Hext.
    apply (place_mates_log h prefix o (sym_spacegroup sym) basis binv _ a b c
             matrices log Hinv Hm).
  - rewrite mate_cmds_length, length_map. reflexivity.
  - intros k mat Hk.
    apply (mate_cmds_nth prefix o _ 0 k).
    rewrite nth_error_map, Hk. reflexivity.
Qed.

Lemma symexpcell_numbering_p1 :
  exists cmds : list HostCmd,
    symexpcell (p1_host (V3 0 0 0)%R (V3 10 10 10)%R) "mate" None 1 0 0 [] = (Ok tt, [] ++ cmds) /\
    List.length cmds = (3 * List.length [identity4 : matrix])%nat /\
    forall (k : nat) (mat : matrix),
      nth_error [identity4] k = Some mat ->
      let name := ("mate" ++ dec (Z.of_nat k + 1))%string in
      nth_error cmds (3 * k) = Some (Create name "obj") /\
      nth_error cmds (3 * k + 1)
      = Some (TransformObject name
                (flat (mate_transform (finM (diag4 10 20 30 1))
                         (finM (cramer (diag4 10 20 30 1)))
                         (mvmul (finM (cramer (diag4 10 20 30 1)))
                            (extent_center (finV3 (V3 0 0 0)%R, finV3 (V3 10 10 10)%R)))
                         (1, 0, 0)%Z mat)) 0) /\
      nth_error cmds (3 * k + 2) = Some (Color (Z.of_nat k + 2) name).
Proof.
  apply (symexpcell_numbering (p1_host (V3 0 0 0)%R (V3 10 10 10)%R) "mate" None 1 0 0
           "obj" p1_symmetry (finV3 (V3 0 0 0)%R, finV3 (V3 10 10 10)%R)
           (finM (diag4 10 20 30 1)) (finM (cramer (diag4 10 20 30 1))) [identity4] []).
  - reflexivity.
  - reflexivity.
  - reflexivity.
  - apply cellbasis_orthogonal.
  - apply inv_fin, det4_p1.
  - reflexivity.
Defined.

Lemma cell_shift_fin (basis : mat4 R) (t0 t1 t2 : Z) :
  cell_shift (finM basis) (t0, t1, t2)
  = finV3 (lattice_vector basis (V3 (IZR t0) (IZR t1) (IZR t2))).
Proof. destruct_mat basis. reflexivity. Qed.

Lemma conjugate_offset (b x v : mat4 R) (e : vec3 R) :
  affine b -> affine v ->
  mmul (mmul b (iadd_col x 3 e)) v
  = iadd_col (mmul (mmul b (iadd_col x 3 (V3 0 0 0)%R)) v) 3 (lattice_vector b e).
Proof.
  unfold affine. intros Hb Hv.
  destruct_mat b; destruct_mat x; destruct_mat v; destruct e.
  cbn in Hb, Hv. injection Hb as -> -> -> ->. injection Hv as -> -> -> ->.
  unfold lattice_vector. array_cbv. array_ext; ring.
Qed.

(** X10.  For an affine basis that can be inverted, the matrix that places
    the copy of an operator in the cell (a, b, c) is the matrix that places
    it in the origin cell with the origin of that cell, as [supercell]
    draws it, added to its translation column. *)
Theorem mate_transform_offset (basis mat : mat4 R) (center : vec3 R) (a b c : Z)
    (binv : matrix) :
  affine basis ->
  inv (finM basis) = Ok binv ->
  mate_transform (finM basis) binv (mvmul binv (finV (homogeneous center))) (a, b, c)
    (finM mat)
  = iadd_col
      (mate_transform (finM basis) binv (mvmul binv (finV (homogeneous center)))
         (0, 0, 0)%Z (finM mat))
      3 (cell_shift (finM basis) (a, b, c)).
Proof.
  intros Haff Hinv. apply inv_fin_inversion in Hinv. destruct Hinv as [Hd ->].
  unfold mate_transform. rewrite cell_shift_fin.
  change (V3 (F64.of_Z a) (F64.of_Z b) (F64.of_Z c))
    with (finV3 (V3 (IZR a) (IZR b) (IZR c))).
  change (V3 (F64.of_Z 0) (F64.of_Z 0) (F64.of_Z 0)) with (finV3 (V3 0 0 0)%R).
  rewrite mvmul_fin, !adjust_mat_fin, !mmul_fin.
  unfold adjust_formula.
  rewrite (conjugate_offset basis _ (cramer basis) (V3 (IZR a) (IZR b) (IZR c)) Haff
             (cramer_affine _ Hd Haff)).
  reflexivity.
Qed.

Lemma mate_transform_offset_p1 :
  mate_transform (finM (diag4 10 20 30 1)) (finM (cramer (diag4 10 20 30 1)))
    (mvmul (finM (cramer (diag4 10 20 30 1))) (finV (homogeneous (V3 15 5 5)%R)))
    (1, 0, 0)%Z (finM identity4)
  = iadd_col
      (mate_transform (finM (diag4 10 20 30 1)) (finM (cramer (diag4 10 20 30 1)))
         (mvmul (finM (cramer (diag4 10 20 30 1))) (finV (homogeneous (V3 15 5 5)%R)))
         (0, 0, 0)%Z (finM identity4))
      3 (cell_shift (finM (diag4 10 20 30 1)) (1, 0, 0)%Z).
Proof.
  apply (mate_transform_offset (diag4 10 20 30 1) identity4 (V3 15 5 5)%R 1 0 0
           (finM (cramer (diag4 10 20 30 1)))).
  - reflexivity.
  - apply inv_fin, det4_p1.
Defined.




(** ** [supercell], continued *)

Lemma symexpcell_log (h : Host) (prefix o : string) (t : Z * Z * Z) (sym : symmetry)
    (extent : vec3 float64 * vec3 float64) (basis binv : matrix)
    (matrices : list matrix) (log : list HostCmd) :
  get_symmetry h o = Ok sym ->
  get_extent h o = Ok extent ->
  fst (cellbasis (slice (sym_numbers sym) 3 6) (slice (sym_numbers sym) 0 3)) = Ok basis ->
  inv basis = Ok binv ->
  sg_sym_to_mat_list h (sym_spacegroup sym) = Ok matrices ->
  symexpcell h prefix (Some o) (fst (fst t)) (snd (fst t)) (snd t) log
  = (Ok tt,
     log ++ mate_cmds prefix o 0
              (map (mate_transform basis binv (mvmul binv (extent_center extent)) t)
                 matrices)).
Proof.
  intros Hsym Hext Hbasis Hinv Hm. destruct t as [[t0 t1] t2]. cbn [fst snd].
  unfold symexpcell, hbind, lift. cbn [default_object]. rewrite Hsym, Hbasis, Hext.
  apply (place_mates_log h prefix o (sym_spacegroup sym) basis binv _ t0 t1 t2
           matrices log Hinv Hm).
Qed.

(** The loop over the axes adds the wireframe of the cell to [obj] when it
    ends normally, whatever [symexpcell] does to the scene. *)
Lemma axis_loop_obj (h : Host) (o : string) (withmates : Z) (basis : matrix)
    (t : Z * Z * Z) (obj obj' : list cgo) (log log' : list HostCmd) :
  for_each [0; 1; 2]%nat (axis_step h o withmates basis t) obj log = (Ok obj', log') ->
  obj' = obj ++ cell_wireframe basis t.
Proof.
  destruct t as [[t0 t1] t2].
  unfold for_each, axis_step, hbind, hret, cell_wireframe. cbn [flat_map].
  destruct (withmates =? 0)%Z.
  - intros E. injection E as <- _. now rewrite app_nil_r, <- !app_assoc.
  - destruct (symexpcell h _ (Some o) t0 t1 t2 log) as [[[]|e] l1]; [|discriminate].
    destruct (symexpcell h _ (Some o) t0 t1 t2 l1) as [[[]|e] l2]; [|discriminate].
    destruct (symexpcell h _ (Some o) t0 t1 t2 l2) as [[[]|e] l3]; [|discriminate].
    intros E. injection E as <- _. now rewrite app_nil_r, <- !app_assoc.
Qed.

Lemma cells_loop_obj (h : Host) (o : string) (withmates : Z) (basis : matrix)
    (ts : list (Z * Z * Z)) :
  forall (obj obj' : list cgo) (log log' : list HostCmd),
    for_each ts (fun t obj => for_each [0; 1; 2]%nat (axis_step h o withmates basis t) obj)
      obj log = (Ok obj', log') ->
    obj' = obj ++ flat_map (cell_wireframe basis) ts.
Proof.
  induction ts as [|t ts IH]; intros obj obj' log log' E.
  - cbn in E. unfold hret in E. injection E as <- _. now rewrite app_nil_r.
  - rewrite for_each_cons in E. unfold hbind at 1 in E.
    destruct (for_each [0; 1; 2]%nat (axis_step h o withmates basis t) obj log)
      as [[obj1|e] log1] eqn:E1; [|discriminate].
    apply axis_loop_obj in E1. apply IH in E. subst.
    cbn [flat_map]. now rewrite <- app_assoc.
Qed.

Lemma endpoints_app (l l' : list cgo) :
  endpoints (l ++ l') = (endpoints l + endpoints l')%nat.
Proof. unfold endpoints. now rewrite filter_app, length_app. Qed.

Lemma endpoints_numbers (l : list float64) : endpoints (map Num l) = 0%nat.
Proof. induction l as [|x l IH]; [reflexivity|exact IH]. Qed.

Lemma endpoints_wireframes (basis : matrix) (ts : list (Z * Z * Z)) :
  endpoints (flat_map (cell_wireframe basis) ts) = (24 * List.length ts)%nat.
Proof.
  induction ts as [|t ts IH]; [reflexivity|].
  cbn [flat_map List.length]. rewrite endpoints_app, IH, endpoints_cell_wireframe. lia.
Qed.

Lemma endpoints_supercell_obj (basis : matrix) (rgb : list float64) (ts : list (Z * Z * Z)) :
  endpoints (supercell_obj basis rgb ts) = (24 * List.length ts)%nat.
Proof.
  unfold supercell_obj.
  rewrite !endpoints_app, endpoints_numbers, endpoints_wireframes. cbn. lia.
Qed.

(** X12.  Whenever [supercell] returns normally, the last two things it
    did were to delete the object [name] and to load the graphics object
    made of the colour header, the wireframe of every cell of [ts] in
    order and the end marker; that object has 24 segment endpoints for
    each cell, 24 a b c in all for repeat counts that are not negative. *)
Theorem supercell_wireframe (h : Host) (a b c : Z) (object : option string)
    (color name : string) (withmates : Z) (log log' : list HostCmd) :
  supercell h a b c object color name withmates log = (Ok tt, log') ->
  exists (o : string) (sym : symmetry) (basis : matrix) (rgb : list float64)
         (before : list HostCmd),
    default_object h object = Ok o /\
    get_symmetry h o = Ok sym /\
    fst (cellbasis (slice (sym_numbers sym) 3 6) (slice (sym_numbers sym) 0 3)) = Ok basis /\
    get_color_tuple h color = Ok rgb /\
    log' = before ++ [Delete name; LoadCgo (supercell_obj basis rgb (cells a b c)) name] /\
    endpoints (supercell_obj basis rgb (cells a b c)) = (24 * List.length (cells a b c))%nat /\
    ((0 <= a)%Z -> (0 <= b)%Z -> (0 <= c)%Z ->
     Z.of_nat (endpoints (supercell_obj basis rgb (cells a b c))) = (24 * (a * b * c))%Z).
Proof.
  unfold supercell, hbind, lift. intros E.
  destruct (default_object h object) as [o|e] eqn:Ho; [|discriminate].
  destruct (get_symmetry h o) as [sym|e] eqn:Hsym; [|discriminate].
  destruct (fst (cellbasis _ _)) as [basis|e] eqn:Hbasis; [|discriminate].
  destruct (get_color_tuple h color) as [rgb|e] eqn:Hrgb; [|discriminate].
  destruct (for_each (cells a b c) _ _ log) as [[obj|e] log1] eqn:Eloop; [|discriminate].
  apply cells_loop_obj in Eloop. subst obj.
  unfold emit in E. injection E as <-.
  exists o, sym, basis, rgb, log1.
  do 4 (split; [first [reflexivity | assumption]|]). split; [|split].
  - unfold supercell_obj. rewrite <- !app_assoc. reflexivity.
  - apply endpoints_supercell_obj.
  - intros Ha Hb Hc. rewrite endpoints_supercell_obj.
    rewrite Nat2Z.inj_mul, (length_cells _ _ _ Ha Hb Hc). lia.
Qed.

Lemma supercell_p1_returns :
  supercell (p1_host (V3 0 0 0)%R (V3 10 10 10)%R) 2 1 1 None "blue" "supercell" 1 []
  = (Ok tt,
     snd (supercell (p1_host (V3 0 0 0)%R (V3 10 10 10)%R) 2 1 1 None "blue" "supercell" 1 [])).
Proof.
  rewrite (supercell_p1_run (p1_host (V3 0 0 0)%R (V3 10 10 10)%R) None "obj" "blue"
             "supercell" (V3 0 0 0)%R (V3 10 10 10)%R [Fin 0; Fin 0; Fin 1] []);
    reflexivity.
Qed.

Lemma supercell_wireframe_p1 :
  exists (o : string) (sym : symmetry) (basis : matrix) (rgb : list float64)
         (before : list HostCmd),
    default_object (p1_host (V3 0 0 0)%R (V3 10 10 10)%R) None = Ok o /\
    get_symmetry (p1_host (V3 0 0 0)%R (V3 10 10 10)%R) o = Ok sym /\
    fst (cellbasis (slice (sym_numbers sym) 3 6) (slice (sym_numbers sym) 0 3)) = Ok basis /\
    get_color_tuple (p1_host (V3 0 0 0)%R (V3 10 10 10)%R) "blue" = Ok rgb /\
    snd (supercell (p1_host (V3 0 0 0)%R (V3 10 10 10)%R) 2 1 1 None "blue" "supercell" 1 [])
    = before ++ [Delete "supercell"; LoadCgo (supercell_obj basis rgb (cells 2 1 1)) "supercell"] /\
    endpoints (supercell_obj basis rgb (cells 2 1 1)) = (24 * List.length (cells 2 1 1))%nat /\
    ((0 <= 2)%Z -> (0 <= 1)%Z -> (0 <= 1)%Z ->
     Z.of_nat (endpoints (supercell_obj basis rgb (cells 2 1 1))) = (24 * (2 * 1 * 1))%Z).
Proof.
  apply (supercell_wireframe (p1_host (V3 0 0 0)%R (V3 10 10 10)%R) 2 1 1 None "blue"
           "supercell" 1 []).
  exact supercell_p1_returns.
Defined.

Lemma sym_cellbasis_returns (sym : symmetry) :
  exists basis,
    fst (cellbasis (slice (sym_numbers sym) 3 6) (slice (sym_numbers sym) 0 3)) = Ok basis.
Proof.
  destruct sym as [[[a b c] [al be ga]] sg].
  apply (cellbasis_returns al be ga a b c).
Qed.

Lemma cells_loop_without_mates (h : Host) (o : string) (basis : matrix)
    (ts : list (Z * Z * Z)) :
  forall (obj : list cgo) (log : list HostCmd),
    for_each ts (fun t obj => for_each [0; 1; 2]%nat (axis_step h o 0 basis t) obj) obj log
    = (Ok (obj ++ flat_map (cell_wireframe basis) ts), log).
Proof.
  induction ts as [|t ts IH]; intros obj log.
  - cbn. unfold hret. now rewrite app_nil_r.
  - rewrite for_each_cons. unfold hbind at 1.
    assert (E : for_each [0; 1; 2]%nat (axis_step h o 0 basis t) obj log
                = (Ok (obj ++ cell_wireframe basis t), log)).
    { destruct t as [[t0 t1] t2].
      unfold for_each, axis_step, hbind, hret, cell_wireframe. cbn [flat_map Z.eqb].
      now rewrite app_nil_r, <- !app_assoc. }
    rewrite E, IH. cbn [flat_map]. now rewrite <- app_assoc.
Qed.

(** X13.  With [withmates] set to 0, [supercell] only draws: once the
    object, its symmetry and the colour are read, it deletes [name] and
    loads the wireframe, creates no copy, and consults neither the extent
    of the object nor the symmetry table, so it also succeeds for a cell
    whose basis cannot be inverted. *)
Theorem supercell_without_mates (h : Host) (a b c : Z) (object : option string)
    (o color name : string) (sym : symmetry) (rgb : list float64) (log : list HostCmd) :
  default_object h object = Ok o ->
  get_symmetry h o = Ok sym ->
  get_color_tuple h color = Ok rgb ->
  exists basis : matrix,
    fst (cellbasis (slice (sym_numbers sym) 3 6) (slice (sym_numbers sym) 0 3)) = Ok basis /\
    supercell h a b c object color name 0 log
    = (Ok tt,
       log ++ [Delete name; LoadCgo (supercell_obj basis rgb (cells a b c)) name]).
Proof.
  intros Ho Hsym Hrgb.
  destruct (sym_cellbasis_returns sym) as [basis Hbasis].
  exists basis. split; [exact Hbasis|].
  unfold supercell, hbind, lift. rewrite Ho, Hsym, Hbasis, Hrgb.
  rewrite cells_loop_without_mates. unfold emit, supercell_obj.
  rewrite <- !app_assoc. reflexivity.
Qed.

Lemma supercell_without_mates_flat :
  exists basis : matrix,
    fst (cellbasis
           (slice (sym_numbers
                     (Sym (V3 (Fin 10) (Fin 20) (Fin 0), V3 (Fin 90) (Fin 90) (Fin 90)) "P1"))
              3 6)
           (slice (sym_numbers
                     (Sym (V3 (Fin 10) (Fin 20) (Fin 0), V3 (Fin 90) (Fin 90) (Fin 90)) "P1"))
              0 3))
    = Ok basis /\
    supercell flat_host 2 1 1 None "blue" "supercell" 0 []
    = (Ok tt,
       [] ++ [ Delete "supercell";
               LoadCgo (supercell_obj basis [Fin 0; Fin 0; Fin 1] (cells 2 1 1))
                       "supercell" ]).
Proof.
  apply (supercell_without_mates flat_host 2 1 1 None "obj" "blue" "supercell"
           (Sym (V3 (Fin 10) (Fin 20) (Fin 0), V3 (Fin 90) (Fin 90) (Fin 90)) "P1")
           [Fin 0; Fin 0; Fin 1] []); reflexivity.
Defined.

Lemma cells_loop_with_mates (h : Host) (o : string) (withmates : Z) (basis : matrix)
    (cmds : Z * Z * Z -> list HostCmd) (ts : list (Z * Z * Z)) :
  withmates <> 0%Z ->
  (forall t log', symexpcell h (mate_prefix t) (Some o) (fst (fst t)) (snd (fst t)) (snd t) log'
                  = (Ok tt, log' ++ cmds t)) ->
  forall (obj : list cgo) (log : list HostCmd),
    for_each ts (fun t obj => for_each [0; 1; 2]%nat (axis_step h o withmates basis t) obj)
      obj log
    = (Ok (obj ++ flat_map (cell_wireframe basis) ts),
       log ++ flat_map (fun t => cmds t ++ cmds t ++ cmds t) ts).
Proof.
  intros Hw Hsym. induction ts as [|t ts IH]; intros obj log.
  - cbn. unfold hret. now rewrite !app_nil_r.
  - rewrite for_each_cons. unfold hbind at 1.
    rewrite (axis_loop_run h o withmates basis t (cmds t) obj log Hw (Hsym t)).
    rewrite IH. cbn [flat_map]. now rewrite <- !app_assoc.
Qed.

(** X14.  With [withmates] set, [supercell] calls [symexpcell] once for
    each of the three axes of every cell (lines 85-100): on a host whose
    reads succeed and for a basis that can be inverted, the commands that
    create, transform and colour the mates of a cell are logged three times
    in a row, cell after cell, before the wireframe is loaded. *)
Theorem supercell_places_thrice (h : Host) (a b c : Z) (object : option string)
    (o color name : string) (withmates : Z) (sym : symmetry)
    (extent : vec3 float64 * vec3 float64) (basis binv : matrix)
    (matrices : list matrix) (rgb : list float64) (log : list HostCmd) :
  withmates <> 0%Z ->
  default_object h object = Ok o ->
  get_symmetry h o = Ok sym ->
  get_extent h o = Ok extent ->
  fst (cellbasis (slice (sym_numbers sym) 3 6) (slice (sym_numbers sym) 0 3)) = Ok basis ->
  inv basis = Ok binv ->
  sg_sym_to_mat_list h (sym_spacegroup sym) = Ok matrices ->
  get_color_tuple h color = Ok rgb ->
  supercell h a b c object color name withmates log
  = (Ok tt,
     log
       ++ flat_map
            (fun t =>
               cell_mates o basis binv (mvmul binv (extent_center extent)) matrices t
                 ++ cell_mates o basis binv (mvmul binv (extent_center extent)) matrices t
                 ++ cell_mates o basis binv (mvmul binv (extent_center extent)) matrices t)
            (cells a b c)
       ++ [Delete name; LoadCgo (supercell_obj basis rgb (cells a b c)) name]).
Proof.
  intros Hw Ho Hsym Hext Hbasis Hinv Hm Hrgb.
  unfold supercell, hbind, lift. rewrite Ho, Hsym, Hbasis, Hrgb.
  rewrite (cells_loop_with_mates h o withmates basis
             (cell_mates o basis binv (mvmul binv (extent_center extent)) matrices)
             (cells a b c) Hw).
  - unfold emit, supercell_obj. rewrite <- !app_assoc. reflexivity.
  - intros t log'. unfold cell_mates.
    apply (symexpcell_log h (mate_prefix t) o t sym extent basis binv matrices log'); assumption.
Qed.

Lemma supercell_places_thrice_p1 :
  supercell (p1_host (V3 0 0 0)%R (V3 10 10 10)%R) 2 1 1 None "blue" "supercell" 1 []
  = (Ok tt,
     []
       ++ flat_map
            (fun t =>
               cell_mates "obj" (finM (diag4 10 20 30 1)) (finM (cramer (diag4 10 20 30 1)))
                 (mvmul (finM (cramer (diag4 10 20 30 1)))
                    (extent_center (finV3 (V3 0 0 0)%R, finV3 (V3 10 10 10)%R)))
                 [identity4] t
                 ++ cell_mates "obj" (finM (diag4 10 20 30 1)) (finM (cramer (diag4 10 20 30 1)))
                      (mvmul (finM (cramer (diag4 10 20 30 1)))
                         (extent_center (finV3 (V3 0 0 0)%R, finV3 (V3 10 10 10)%R)))
                      [identity4] t
                 ++ cell_mates "obj" (finM (diag4 10 20 30 1)) (finM (cramer (diag4 10 20 30 1)))
                      (mvmul (finM (cramer (diag4 10 20 30 1)))
                         (extent_center (finV3 (V3 0 0 0)%R, finV3 (V3 10 10 10)%R)))
                      [identity4] t)
            (cells 2 1 1)
       ++ [ Delete "supercell";
            LoadCgo (supercell_obj (finM (diag4 10 20 30 1)) [Fin 0; Fin 0; Fin 1] (cells 2 1 1))
                    "supercell" ]).
Proof.
  apply (supercell_places_thrice (p1_host (V3 0 0 0)%R (V3 10 10 10)%R) 2 1 1 None "obj"
           "blue" "supercell" 1 p1_symmetry (finV3 (V3 0 0 0)%R, finV3 (V3 10 10 10)%R)
           (finM (diag4 10 20 30 1)) (finM (cramer (diag4 10 20 30 1))) [identity4]
           [Fin 0; Fin 0; Fin 1] []).
  - discriminate.
  - reflexivity.
  - reflexivity.
  - reflexivity.
  - apply cellbasis_orthogonal.
  - apply inv_fin, det4_p1.
  - reflexivity.
  - reflexivity.
Defined.

(** Whether [symexpcell] raises depends on the object alone, not on the
    prefix, the offset or the log. *)
Lemma symexpcell_uniform (h : Host) (o : string) :
  (exists e, forall prefix a b c log,
      symexpcell h prefix (Some o) a b c log = (Raise e, log))
  \/ (exists cmds : Z * Z * Z -> list HostCmd, forall t log,
        symexpcell h (mate_prefix t) (Some o) (fst (fst t)) (snd (fst t)) (snd t) log
        = (Ok tt, log ++ cmds t)).
Proof.
  destruct (get_symmetry h o) as [sym|e] eqn:Hsym.
  2: { left. exists e. intros. unfold symexpcell, hbind, lift. cbn [default_object]. now rewrite Hsym. }
  destruct (sym_cellbasis_returns sym) as [basis Hbasis].
  destruct (get_extent h o) as [extent|e] eqn:Hext.
  2: { left. exists e. intros. unfold symexpcell, hbind, lift. cbn [default_object].
       now rewrite Hsym, Hbasis, Hext. }
  destruct (inv basis) as [binv|e] eqn:Hinv.
  2: { left. exists e. intros. unfold symexpcell, place_mates, hbind, lift. cbn [default_object].
       now rewrite Hsym, Hbasis, Hext, Hinv. }
  destruct (sg_sym_to_mat_list h (sym_spacegroup sym)) as [matrices|e] eqn:Hm.
  2: { left. exists e. intros. unfold symexpcell, place_mates, hbind, lift. cbn [default_object].
       now rewrite Hsym, Hbasis, Hext, Hinv, Hm. }
  right. eexists. intros t log.
  apply (symexpcell_log h (mate_prefix t) o t sym extent basis binv matrices log);
    assumption.
Qed.

Lemma cells_loop_raises (h : Host) (o : string) (withmates : Z) (basis : matrix)
    (e : exn) (ts : list (Z * Z * Z)) (obj : list cgo) (log : list HostCmd) :
  withmates <> 0%Z ->
  ts <> [] ->
  (forall prefix a b c log', symexpcell h prefix (Some o) a b c log' = (Raise e, log')) ->
  for_each ts (fun t obj => for_each [0; 1; 2]%nat (axis_step h o withmates basis t) obj)
    obj log
  = (Raise e, log).
Proof.
  intros Hw Hts Hsym. destruct ts as [|[[t0 t1] t2] ts]; [contradiction|].
  apply Z.eqb_neq in Hw.
  rewrite for_each_cons. unfold hbind at 1.
  assert (E : for_each [0; 1; 2]%nat (axis_step h o withmates basis (t0, t1, t2)) obj log
              = (Raise e, log)).
  { unfold for_each, axis_step, hbind, hret. rewrite Hw, Hsym. reflexivity. }
  rewrite E. reflexivity.
Qed.

(** X15.  [supercell] changes the scene completely or not at all: either
    it returns normally, or it raises and has logged nothing. *)
Theorem supercell_all_or_nothing (h : Host) (a b c : Z) (object : option string)
    (color name : string) (withmates : Z) (log : list HostCmd) :
  (exists log', supercell h a b c object color name withmates log = (Ok tt, log'))
  \/ (exists e, supercell h a b c object color name withmates log = (Raise e, log)).
Proof.
  unfold supercell, hbind, lift.
  destruct (default_object h object) as [o|e]; [|right; now exists e].
  destruct (get_symmetry h o) as [sym|e]; [|right; now exists e].
  destruct (fst (cellbasis _ _)) as [basis|e]; [|right; now exists e].
  destruct (get_color_tuple h color) as [rgb|e]; [|right; now exists e].
  destruct (Z.eq_dec withmates 0) as [->|Hw].
  - left. rewrite cells_loop_without_mates. unfold emit. eexists. reflexivity.
  - destruct (symexpcell_uniform h o) as [[e He]|[cmds Hc]].
    + destruct (cells a b c) as [|t ts] eqn:Ets.
      * left. cbn. unfold hret, emit. eexists. reflexivity.
      * right. exists e.
        rewrite (cells_loop_raises h o withmates basis e (t :: ts) _ log Hw); [reflexivity| |exact He].
        discriminate.
    + left. rewrite (cells_loop_with_mates h o withmates basis cmds (cells a b c) Hw Hc).
      unfold emit. eexists. reflexivity.
Qed.

(** ** [PutCenterCallback] *)

Lemma pydiv_raises (x y : float64) :
  pydiv x y = inl ZeroDivisionError <-> y = Fin 0.
Proof.
  unfold pydiv. destruct y as [r| | |]; try (split; discriminate).
  split.
  - intros E. destruct (Req_dec_T r 0) as [->|Hr]; [reflexivity|].
    pose proof (sgn_neq _ Hr). destruct (F64.sgn r); congruence.
  - intros E. injection E as ->. now rewrite sgn_zero.
Qed.

Lemma pydiv_returns (x y : float64) :
  y <> Fin 0 -> pydiv x y = inr (F64.div x y).
Proof.
  intros Hy. destruct (pydiv x y) as [[]|q] eqn:E.
  - apply pydiv_raises in E. contradiction.
  - unfold pydiv in E. destruct y as [r| | |]; try congruence.
    destruct (F64.sgn r); congruence.
Qed.



Import PutCenterCallback.



(** X16.  What a call keeps and what it may do: the name, the corner and
    the name of the callback object never change; a call issues at most one
    command; it starts the deleting thread exactly when the axes object is
    no longer among the scene's objects, and then neither reads the view
    nor changes its own state; and it only ever moves the object of its own
    name. *)
Theorem call_invariant (self : t) (sc : scene) :
  let '(_, self', cmds) := call self sc in
  name self' = name self /\ corner self' = corner self /\ cb_name self' = cb_name self /\
  (existsb (String.eqb (name self)) (scene_names sc) = false ->
     self' = self /\ cmds = [SpawnDelete (cb_name self)]) /\
  (existsb (String.eqb (name self)) (scene_names sc) = true ->
     cmds = [] \/ exists m, cmds = [SetObjectTTT (name self) m]).
Proof.
  unfold call.
  destruct (existsb (String.eqb (name self)) (scene_names sc)); cbn [negb].
  - destruct (match prev_v self with Some p => view_eqb (scene_view sc) p | None => false end).
    + repeat split; try discriminate. intros _. now left.
    + destruct (if (corner (set_prev_v self (scene_view sc)) =? 0)%Z then _ else _) as [e|t1].
      * cbn. repeat split; try discriminate. intros _. now left.
      * destruct (ttt (scene_view sc) t1) as [e|m]; cbn.
        -- repeat split; try discriminate. intros _. now left.
        -- repeat split; try discriminate. intros _. right. now exists m.
  - repeat split; try discriminate.
Qed.

Lemma float_eqb_refl (x : float64) : is_nan x = false -> float_eqb x x = true.
Proof.
  destruct x as [r| | |]; cbn; try reflexivity; [|discriminate].
  intros _. destruct (Req_dec_T r r); [reflexivity|contradiction].
Qed.



Lemma call_remembers (self : t) (sc : scene) :
  existsb (String.eqb (name self)) (scene_names sc) = true ->
  match prev_v self with Some p => view_eqb (scene_view sc) p | None => false end = false ->
  snd (fst (call self sc)) = set_prev_v self (scene_view sc).
Proof.
  intros Hn Hv. unfold call. rewrite Hn, Hv. cbn [negb].
  destruct (if (corner (set_prev_v self (scene_view sc)) =? 0)%Z then _ else _) as [e|p];
    [reflexivity|].
  destruct (ttt (scene_view sc) p); reflexivity.
Qed.

(** X18.  A second call on an unchanged scene does nothing: when the axes
    object exists and the view holds no [nan], the call that follows any
    call on the same scene issues no command, raises nothing and leaves the
    callback object as it is, also when the first call raised. *)
Theorem call_twice (self : t) (sc : scene) :
  existsb (String.eqb (name self)) (scene_names sc) = true ->
  view_eqb (scene_view sc) (scene_view sc) = true ->
  call (snd (fst (call self sc))) sc = (None, snd (fst (call self sc)), []).
Proof.
  intros Hn Hv.
  assert (Hset : call (set_prev_v self (scene_view sc)) sc
                 = (None, set_prev_v self (scene_view sc), [])).
  { unfold call. cbn [name set_prev_v prev_v]. rewrite Hn, Hv. reflexivity. }
  destruct (match prev_v self with Some p => view_eqb (scene_view sc) p | None => false end)
    eqn:Hp.
  - assert (E : call self sc = (None, self, [])).
    { unfold call. rewrite Hn, Hp. reflexivity. }
    rewrite E. cbn [fst snd]. exact E.
  - rewrite (call_remembers self sc Hn Hp). exact Hset.
Qed.

Lemma call_twice_sample :
  call (snd (fst (call (sample_callback 1) sample_scene))) sample_scene
  = (None, snd (fst (call (sample_callback 1) sample_scene)), []).
Proof.
  apply (call_twice (sample_callback 1) sample_scene).
  - reflexivity.
  - unfold sample_scene, sample_view, fin_view, view_eqb, vec3_eqb. cbn.
    repeat match goal with
           | |- context [Req_dec_T ?a ?a] =>
               destruct (Req_dec_T a a); [|contradiction]
           end.
    reflexivity.
Defined.

Lemma of_Z_nonzero (z : Z) : z <> 0%Z -> F64.of_Z z <> Fin 0.
Proof.
  intros Hz E. unfold F64.of_Z in E. injection E as E. now apply eq_IZR in E.
Qed.

Lemma corner_point_fin (self : t) (rot : vec3 (vec3 R)) (cam origin clip : vec3 R)
    (w h : Z) :
  h <> 0%Z ->
  let sx := if ((corner self =? 2) || (corner self =? 3))%Z then (-1)%R else 1%R in
  let sy := if ((corner self =? 3) || (corner self =? 4))%Z then (-1)%R else 1%R in
  let ox := (15 / 100 * x2 cam * IZR w / IZR h * sx)%R in
  let oy := (15 / 100 * x2 cam * sy)%R in
  corner_point self (fin_view rot cam origin clip) (w, h) (finV3 origin)
  = inr (finV3 (V3 (x0 origin + (x0 (x0 rot) * ox + x1 (x0 rot) * oy))
                   (x1 origin + (x0 (x1 rot) * ox + x1 (x1 rot) * oy))
                   (x2 origin + (x0 (x2 rot) * ox + x1 (x2 rot) * oy)))%R).
Proof.
  intros Hh sx sy ox oy. unfold corner_point. cbn [fst snd].
  rewrite (pydiv_returns _ _ (of_Z_nonzero h Hh)).
  assert (Hd : IZR h <> 0%R) by (intros E; now apply eq_IZR in E).
  cbn [fin_view view_cam view_rot finV3 vmap3 x0 x1 x2 mul Scalar_float64 F64.mul F64.of_Z].
  rewrite (div_fin _ _ Hd).
  subst sx sy ox oy.
  destruct ((corner self =? 2) || (corner self =? 3))%Z;
    destruct ((corner self =? 3) || (corner self =? 4))%Z;
    destruct rot as [[? ? ?] [? ? ?] [? ? ?]], origin;
    cbn; f_equal; array_ext; cbn [x0 x1 x2]; field; exact Hd.
Qed.

(** X19.  Opposite corners mirror each other about the origin of the view:
    for a finite view and a viewport of height not zero, the point the axes
    are put at for corner 3 is the reflection through the view's origin of
    the point for corner 1, and likewise for corners 4 and 2. *)
Theorem corner_point_opposite (s s' : t) (rot : vec3 (vec3 R)) (cam origin clip : vec3 R)
    (w h : Z) :
  h <> 0%Z ->
  (corner s = 1 /\ corner s' = 3)%Z \/ (corner s = 2 /\ corner s' = 4)%Z ->
  exists p p' : vec3 R,
    corner_point s (fin_view rot cam origin clip) (w, h) (finV3 origin) = inr (finV3 p) /\
    corner_point s' (fin_view rot cam origin clip) (w, h) (finV3 origin) = inr (finV3 p') /\
    (x0 p + x0 p' = 2 * x0 origin)%R /\
    (x1 p + x1 p' = 2 * x1 origin)%R /\
    (x2 p + x2 p' = 2 * x2 origin)%R.
Proof.
  intros Hh Hc. eexists. eexists.
  split; [apply (corner_point_fin s rot cam origin clip w h Hh)|].
  split; [apply (corner_point_fin s' rot cam origin clip w h Hh)|].
  cbn [x0 x1 x2].
  destruct Hc as [[-> ->]|[-> ->]]; cbn; repeat split; ring.
Qed.

Lemma corner_point_opposite_sample :
  exists p p' : vec3 R,
    corner_point (sample_callback 1)
      (fin_view (V3 (V3 1 0 0) (V3 0 1 0) (V3 0 0 1))%R (V3 0 0 (-100))%R (V3 1 2 3)%R
         (V3 80 120 0)%R) (640, 480)%Z (finV3 (V3 1 2 3)%R) = inr (finV3 p) /\
    corner_point (sample_callback 3)
      (fin_view (V3 (V3 1 0 0) (V3 0 1 0) (V3 0 0 1))%R (V3 0 0 (-100))%R (V3 1 2 3)%R
         (V3 80 120 0)%R) (640, 480)%Z (finV3 (V3 1 2 3)%R) = inr (finV3 p') /\
    (x0 p + x0 p' = 2 * x0 (V3 1 2 3))%R /\
    (x1 p + x1 p' = 2 * x1 (V3 1 2 3))%R /\
    (x2 p + x2 p' = 2 * x2 (V3 1 2 3))%R.
Proof.
  apply (corner_point_opposite (sample_callback 1) (sample_callback 3)
           (V3 (V3 1 0 0) (V3 0 1 0) (V3 0 0 1))%R (V3 0 0 (-100))%R (V3 1 2 3)%R
           (V3 80 120 0)%R 640 480).
  - discriminate.
  - left. split; reflexivity.
Defined.

(** ** [cell_axes] *)





Lemma cylinders_app (l l' : list arrow_cgo) :
  cylinders (l ++ l') = (cylinders l + cylinders l')%nat.
Proof. unfold cylinders. now rewrite filter_app, length_app. Qed.

Lemma cones_app (l l' : list arrow_cgo) : cones (l ++ l') = (cones l + cones l')%nat.
Proof. unfold cones. now rewrite filter_app, length_app. Qed.

Lemma cylinders_values (l : list float64) : cylinders (map Val l) = 0%nat.
Proof. induction l as [|x l IH]; [reflexivity|exact IH]. Qed.

Lemma cones_values (l : list float64) : cones (map Val l) = 0%nat.
Proof. induction l as [|x l IH]; [reflexivity|exact IH]. Qed.

Lemma add_axis_arrrow_counts (obj : list arrow_cgo) (r : vec3 float64) (rgb : list float64) :
  cylinders (add_axis_arrrow obj r rgb) = S (cylinders obj) /\
  cones (add_axis_arrrow obj r rgb) = S (cones obj) /\
  List.length (add_axis_arrrow obj r rgb) = (List.length obj + 19 + 4 * List.length rgb)%nat.
Proof.
  unfold add_axis_arrrow. split; [|split].
  - rewrite !cylinders_app, !cylinders_values. cbn. lia.
  - rewrite !cones_app, !cones_values. cbn. lia.
  - rewrite !length_app, !length_map. cbn. lia.
Qed.

(** X21.  Once the object and its symmetry are read, [cell_axes] always
    prints the basis and sets [auto_zoom] to 0, also for a degenerate cell.
    Then either the three colours and the callback name are found, and it
    loads the callback and one graphics object of three cylinders and three
    cones and returns; or one of these reads fails, and it raises with
    nothing loaded and [auto_zoom] left at 0. *)
Theorem cell_axes_outcome (h : AxesHost) (object : option string)
    (o a_color b_color c_color name : string) (sym : symmetry) (log : list AxesCmd) :
  default_object (axes_host h) object = Ok o ->
  get_symmetry (axes_host h) o = Ok sym ->
  exists basis : matrix,
    fst (cellbasis (slice (sym_numbers sym) 3 6) (slice (sym_numbers sym) 0 3)) = Ok basis /\
    ((exists (rgb_a rgb_b rgb_c : list float64) (cbn : string) (obj : list arrow_cgo),
        get_color_tuple (axes_host h) a_color = Ok rgb_a /\
        get_color_tuple (axes_host h) b_color = Ok rgb_b /\
        get_color_tuple (axes_host h) c_color = Ok rgb_c /\
        get_unused_name h "_cb" = Ok cbn /\
        cell_axes h object a_color b_color c_color name log
        = (Ok tt,
           log ++ [ Print basis; SetSetting "auto_zoom" 0;
                    LoadCallback (PutCenterCallback.Make name 1 cbn None) cbn;
                    LoadArrows obj name ]) /\
        cylinders obj = 3%nat /\ cones obj = 3%nat /\
        List.length obj
        = (57 + 4 * (List.length rgb_a + List.length rgb_b + List.length rgb_c))%nat)
     \/
     (exists e : exn,
        cell_axes h object a_color b_color c_color name log
        = (Raise e, log ++ [Print basis; SetSetting "auto_zoom" 0]))).
Proof.
  intros Ho Hsym. destruct (sym_cellbasis_returns sym) as [basis Hbasis].
  exists basis. split; [exact Hbasis|].
  unfold cell_axes, abind, alift, aemit. rewrite Ho, Hsym, Hbasis.
  destruct (get_color_tuple (axes_host h) a_color) as [rgb_a|e];
    [|right; exists e; now rewrite <- app_assoc].
  destruct (get_color_tuple (axes_host h) b_color) as [rgb_b|e];
    [|right; exists e; now rewrite <- app_assoc].
  destruct (get_color_tuple (axes_host h) c_color) as [rgb_c|e];
    [|right; exists e; now rewrite <- app_assoc].
  destruct (get_unused_name h "_cb") as [cbn|e];
    [|right; exists e; now rewrite <- app_assoc].
  left. exists rgb_a, rgb_b, rgb_c, cbn. eexists.
  do 4 (split; [reflexivity|]).
  split; [now rewrite <- !app_assoc|].
  set (o1 := add_axis_arrrow [] _ rgb_a).
  set (o2 := add_axis_arrrow o1 _ rgb_b).
  destruct (add_axis_arrrow_counts [] (normalized (col3 basis 0)) rgb_a) as [C1 [K1 L1]].
  destruct (add_axis_arrrow_counts o1 (normalized (col3 basis 1)) rgb_b) as [C2 [K2 L2]].
  destruct (add_axis_arrrow_counts o2 (normalized (col3 basis 2)) rgb_c) as [C3 [K3 L3]].
  fold o1 in C1, K1, L1. fold o2 in C2, K2, L2.
  rewrite C3, C2, C1, K3, K2, K1, L3, L2, L1. cbn. repeat split; lia.
Qed.

Lemma cell_axes_outcome_flat :
  exists basis : matrix,
    fst (cellbasis
           (slice (sym_numbers
                     (Sym (V3 (Fin 10) (Fin 20) (Fin 0), V3 (Fin 90) (Fin 90) (Fin 90)) "P1"))
              3 6)
           (slice (sym_numbers
                     (Sym (V3 (Fin 10) (Fin 20) (Fin 0), V3 (Fin 90) (Fin 90) (Fin 90)) "P1"))
              0 3))
    = Ok basis /\
    ((exists (rgb_a rgb_b rgb_c : list float64) (cbn : string) (obj : list arrow_cgo),
        get_color_tuple flat_host "red" = Ok rgb_a /\
        get_color_tuple flat_host "green" = Ok rgb_b /\
        get_color_tuple flat_host "blue" = Ok rgb_c /\
        Ok ("_cb" ++ "01")%string = Ok cbn /\
        cell_axes (Build_AxesHost flat_host (fun p => Ok (p ++ "01")%string))
          None "red" "green" "blue" "cell_axes" []
        = (Ok tt,
           [] ++ [ Print basis; SetSetting "auto_zoom" 0;
                   LoadCallback (PutCenterCallback.Make "cell_axes" 1 cbn None) cbn;
                   LoadArrows obj "cell_axes" ]) /\
        cylinders obj = 3%nat /\ cones obj = 3%nat /\
        List.length obj
        = (57 + 4 * (List.length rgb_a + List.length rgb_b + List.length rgb_c))%nat)
     \/
     (exists e : exn,
        cell_axes (Build_AxesHost flat_host (fun p => Ok (p ++ "01")%string))
          None "red" "green" "blue" "cell_axes" []
        = (Raise e, [] ++ [Print basis; SetSetting "auto_zoom" 0]))).
Proof.
  apply (cell_axes_outcome (Build_AxesHost flat_host (fun p => Ok (p ++ "01")%string))
           None "obj" "red" "green" "blue" "cell_axes"
           (Sym (V3 (Fin 10) (Fin 20) (Fin 0), V3 (Fin 90) (Fin 90) (Fin 90)) "P1") []);
    reflexivity.
Defined.

Lemma normalized_zero : normalized (V3 (Fin 0) (Fin 0) (Fin 0)) = V3 NaN NaN NaN.
Proof.
  unfold normalized.
  rewrite (norm_fin 0 0 0 0) by (try lra; ring).
  unfold vmap3. cbn [x0 x1 x2 div Scalar_float64 F64.div].
  rewrite sgn_zero. reflexivity.
Qed.

(** X22.  [cell_axes] does not guard against an edge of length zero: for
    such a cell (here the c edge, on a finite run) the direction of the
    axis is 0/0, every coordinate of it is [nan], and the snapping of
    small components to zero leaves the [nan] in place. *)
Theorem cell_axes_zero_edge (al be ga a b : R) :
  sin (rad_of ga) <> 0%R ->
  (0 <= radicand al be ga)%R ->
  exists m,
    fst (cellbasis [Fin al; Fin be; Fin ga] [Fin a; Fin b; Fin 0]) = Ok m /\
    snap (1 / 100000) (normalized (col3 m 2)) = V3 NaN NaN NaN.
Proof.
  intros Hs Hr. exists (finM (basis_formula al be ga a b 0)).
  split; [apply cellbasis_finite; assumption|].
  change (col3 (finM (basis_formula al be ga a b 0)) 2)
    with (V3 (Fin (cos (rad_of be) * 0)) (Fin (skew al be ga * 0))
             (Fin (sqrt (radicand al be ga) * 0))).
  rewrite !Rmult_0_r, normalized_zero. reflexivity.
Qed.

Lemma cell_axes_zero_edge_flat :
  exists m,
    fst (cellbasis [Fin 90; Fin 90; Fin 90] [Fin 10; Fin 20; Fin 0]) = Ok m /\
    snap (1 / 100000) (normalized (col3 m 2)) = V3 NaN NaN NaN.
Proof.
  apply (cell_axes_zero_edge 90 90 90 10 20).
  - rewrite rad_of_90, sin_PI2. lra.
  - rewrite radicand_90. lra.
Defined.
